(** * OpsPilot orchestrator: incident store, alert watcher, triage and fixer agents

    A shallow embedding of the orchestrator's TypeScript sources:

    - [services/database.ts] ([DatabaseService], in-memory backend, i.e. the
      branches taken when [this.pool] is [null]);
    - [services/incident-manager.ts] ([IncidentManager]);
    - [agents/watcher-agent.ts] ([WatcherAgent]) and the alert listener and
      webhook handler of the orchestrator's [index.ts];
    - [agents/triage-agent.ts] ([TriageAgent]);
    - [agents/fixer-agent.ts] ([FixerAgent]).

    JavaScript objects typed [any] are modelled as finite maps from property
    names to values, exceptions as an explicit [Throw] outcome, and the mutable
    process state (the store, the clock, the uuid generator) as a state that
    every operation threads. *)

From Stdlib Require Import ZArith List String Ascii Floats Lia Permutation Sorted.
From stdpp Require Import base option gmap strings list pretty.

Set Warnings "-register-all,-inexact-float".

Open Scope string_scope.

(* ===================================================================== *)
(** * JavaScript values *)
(* ===================================================================== *)

(** A JSON-like JavaScript value.  A Number is held as the decimal text that
    [Number::toString] gives it (the store never computes with the numbers of a
    payload, it only copies, tests and prints them); ["0"] and ["NaN"] are the
    falsy ones ([-0] prints as ["0"]). *)
Inductive value : Type :=
| VUndef
| VNull
| VBool (b : bool)
| VNum (repr : string)
| VStr (s : string)
| VArr (items : list value)
| VObj (props : gmap string value).

(** Exceptions the modelled code can raise. *)
Inductive error : Type :=
| TypeError (msg : string)
| SyntaxError (msg : string)
| OtherError (msg : string).

Inductive result (A : Type) : Type :=
| Ok (a : A)
| Throw (e : error).
Arguments Ok {A} a.
Arguments Throw {A} e.

(** JavaScript's [ToBoolean]. *)
Definition truthy (v : value) : bool :=
  match v with
  | VUndef | VNull => false
  | VBool b => b
  | VNum r => negb (String.eqb r "0" || String.eqb r "NaN")
  | VStr s => negb (String.eqb s "")
  | VArr _ | VObj _ => true
  end.

(** [a || b]. *)
Definition js_or (a b : value) : value := if truthy a then a else b.

(** [a ?? b]. *)
Definition nullish (a b : value) : value :=
  match a with
  | VUndef | VNull => b
  | _ => a
  end.

(** [typeof v === 'string']. *)
Definition typeof_string (v : value) : bool :=
  match v with VStr _ => true | _ => false end.

(** [v === s] for a string [s]. *)
Definition eq_str (v : value) (s : string) : bool :=
  match v with VStr s' => String.eqb s' s | _ => false end.

(** [v === undefined] *)
Definition is_undefined (v : value) : bool :=
  match v with VUndef => true | _ => false end.

(** [o.k] on an object held as a map: a missing property reads [undefined]. *)
Definition prop (o : gmap string value) (k : string) : value :=
  default VUndef (o !! k).

(** [v.k]: reading a property of [undefined] or [null] raises a TypeError.
    The property names the sources read ([id], [status], [labels],
    [hypothesis], ...) are not properties of the String, Number, Boolean or
    Array prototypes, so on those values the read yields [undefined]. *)
Definition get (v : value) (k : string) : result value :=
  match v with
  | VUndef | VNull => Throw (TypeError ("Cannot read properties of undefined or null: " +:+ k))
  | VObj o => Ok (prop o k)
  | _ => Ok VUndef
  end.

(** [v?.k] *)
Definition get_opt (v : value) (k : string) : value :=
  match v with
  | VObj o => prop o k
  | _ => VUndef
  end.

(** [String.prototype.concat] of the items, with a separator. *)
Fixpoint join (sep : string) (l : list string) : string :=
  match l with
  | [] => ""
  | [x] => x
  | x :: rest => x +:+ sep +:+ join sep rest
  end.

(** JavaScript's [ToString], as a template literal applies it. *)
Fixpoint ToString (v : value) : string :=
  match v with
  | VUndef => "undefined"
  | VNull => "null"
  | VBool true => "true"
  | VBool false => "false"
  | VNum r => r
  | VStr s => s
  | VArr l =>
      join "," (map (fun x => match x with
                              | VUndef | VNull => ""
                              | _ => ToString x
                              end) l)
  | VObj _ => "[object Object]"
  end.

(* ===================================================================== *)
(** * Time *)
(* ===================================================================== *)

(** An instant is the number of milliseconds since the epoch, as
    [Date.prototype.getTime] returns it. *)
Definition instant := Z.

(** Decimal text of a non-negative number, left-padded with zeros. *)
Fixpoint zeros (n : nat) : string :=
  match n with O => "" | S n' => "0" +:+ zeros n' end.

Definition pad (width : nat) (z : Z) : string :=
  let s := pretty (Z.abs z) in
  zeros (width - String.length s) +:+ s.

(** Proleptic Gregorian date of a day number (days since 1970-01-01). *)
Definition civil_from_days (days : Z) : Z * Z * Z :=
  let z := (days + 719468)%Z in
  let era := (z / 146097)%Z in
  let doe := (z - era * 146097)%Z in
  let yoe := ((doe - doe / 1460 + doe / 36524 - doe / 146096) / 365)%Z in
  let y := (yoe + era * 400)%Z in
  let doy := (doe - (365 * yoe + yoe / 4 - yoe / 100))%Z in
  let mp := ((5 * doy + 2) / 153)%Z in
  let d := (doy - (153 * mp + 2) / 5 + 1)%Z in
  let m := (if (mp <? 10)%Z then mp + 3 else mp - 9)%Z in
  ((if (m <=? 2)%Z then y + 1 else y)%Z, m, d).

(** [new Date(t).toISOString()]: [YYYY-MM-DDTHH:mm:ss.sssZ], with the
    six-digit signed year outside 0..9999. *)
Definition toISOString (t : instant) : string :=
  let days := (t / 86400000)%Z in
  let ms := (t mod 86400000)%Z in
  let '(y, m, d) := civil_from_days days in
  let year :=
    if ((0 <=? y) && (y <=? 9999))%Z then pad 4 y
    else (if (y <? 0)%Z then "-" else "+") +:+ pad 6 y in
  year +:+ "-" +:+ pad 2 m +:+ "-" +:+ pad 2 d +:+ "T" +:+
  pad 2 (ms / 3600000) +:+ ":" +:+ pad 2 ((ms / 60000) mod 60) +:+ ":" +:+
  pad 2 ((ms / 1000) mod 60) +:+ "." +:+ pad 3 (ms mod 1000) +:+ "Z".

(* ===================================================================== *)
(** * The persistence store ([DatabaseService], in-memory backend) *)
(* ===================================================================== *)

(** A row of [inMemoryStorage.timeline].  [ev_created_at] is the instant whose
    [toISOString] the source stores in [created_at], and that
    [new Date(created_at).getTime()] gives back when the rows are sorted. *)
Record TimelineEvent : Type := mkEvent {
  ev_id : nat;
  incident_id : string;
  event_type : string;
  event_data : value;
  ev_created_at : instant
}.

(** A row of [inMemoryStorage.relations]: the six properties the callers of
    [addMemoryRelation] pass, the row number and the creation instant. *)
Record MemoryRelation : Type := mkRelation {
  rel_id : nat;
  entity_type : value;
  entity_id : value;
  related_type : value;
  related_id : value;
  relationship : value;
  metadata : value;
  rel_created_at : instant
}.

(** The argument of [addMemoryRelation]. *)
Record RelationData : Type := mkRelationData {
  d_entity_type : value;
  d_entity_id : value;
  d_related_type : value;
  d_related_id : value;
  d_relationship : value;
  d_metadata : value
}.

(** [inMemoryStorage]: incidents by id (each a mutable JavaScript object), the
    timeline rows and the relation rows in insertion order. *)
Record DatabaseService : Type := mkDatabase {
  incidents : gmap string (gmap string value);
  timeline : list TimelineEvent;
  relations : list MemoryRelation
}.

Definition empty_database : DatabaseService :=
  {| incidents := ∅; timeline := []; relations := [] |}.

(** The process state: the store, and the two sources of fresh data the code
    draws from.  [clock n] is the instant the [n]-th [new Date()] of the run
    reads, [uuids n] the [n]-th result of [uuidv4()]. *)
Record World : Type := mkWorld {
  db : DatabaseService;
  clock : nat → instant;
  reads : nat;
  uuids : nat → string;
  drawn : nat
}.

(** Computations over the process state that return or throw.  The state
    changes made before a throw stay. *)
Definition M (A : Type) : Type := World → result A * World.

#[global] Instance M_ret : MRet M := λ A a w, (Ok a, w).
#[global] Instance M_bind : MBind M := λ A B f m w,
  match m w with
  | (Ok a, w') => f a w'
  | (Throw e, w') => (Throw e, w')
  end.

Definition throw {A : Type} (e : error) : M A := λ w, (Throw e, w).

Definition lift {A : Type} (r : result A) : M A := λ w, (r, w).

(** The state after one more reading of the clock, after one more uuid, and
    with another store. *)
Definition tick (w : World) : World :=
  {| db := db w; clock := clock w; reads := S (reads w);
     uuids := uuids w; drawn := drawn w |}.

Definition draw (w : World) : World :=
  {| db := db w; clock := clock w; reads := reads w;
     uuids := uuids w; drawn := S (drawn w) |}.

Definition with_db (d : DatabaseService) (w : World) : World :=
  {| db := d; clock := clock w; reads := reads w;
     uuids := uuids w; drawn := drawn w |}.

(** [new Date()] *)
Definition now : M instant := λ w, (Ok (clock w (reads w)), tick w).

(** [uuidv4()] *)
Definition uuidv4 : M string := λ w, (Ok (uuids w (drawn w)), draw w).

Definition get_db : M DatabaseService := λ w, (Ok (db w), w).

Definition put_db (d : DatabaseService) : M unit := λ w, (Ok tt, with_db d w).

(** [this.inMemoryStorage.incidents.set(id, incident)] *)
Definition set_incident (id : string) (incident : gmap string value) : M unit :=
  d ← get_db;
  put_db {| incidents := <[id := incident]> (incidents d);
            timeline := timeline d; relations := relations d |}.

(** [DatabaseService.createIncident(data)], with [id] the string [data.id]
    (the key type of the [incidents] map). *)
Definition Database_createIncident (id : string) (data : gmap string value)
  : M (gmap string value) :=
  t1 ← now;
  t2 ← now;
  let incident :=
    <["updated_at" := VStr (toISOString t2)]>
      (<["created_at" := VStr (toISOString t1)]>
         (<["status" := js_or (prop data "status") (VStr "open")]> data)) in
  _ ← set_incident id incident;
  mret incident.

(** The key normalisation at the head of [DatabaseService.updateIncident]:
    a camelCase attachment moves to its snake_case column unless the update
    names that column too. *)
Definition normalize_key (camel snake : string) (u : gmap string value)
  : gmap string value :=
  match u !! camel, u !! snake with
  | Some v, None => delete camel (<[snake := v]> u)
  | _, _ => u
  end.

Definition normalize (updates : gmap string value) : gmap string value :=
  normalize_key "fixResult" "fix_result"
    (normalize_key "triageResult" "triage_result" updates).

(** The in-memory branch mirrors a snake_case column back to camelCase. *)
Definition mirror_key (snake camel : string) (u : gmap string value)
  : gmap string value :=
  match u !! snake with
  | Some v => <[camel := v]> u
  | None => u
  end.

Definition mirror (normalized : gmap string value) : gmap string value :=
  mirror_key "fix_result" "fixResult"
    (mirror_key "triage_result" "triageResult" normalized).

(** [Object.assign(target, source)] for a [source] that has no own property
    named [__proto__]: the source's properties win.  (Assigning that one
    property goes through the setter of [Object.prototype] and changes the
    target's prototype instead of giving it an own property; an object is
    held here as its own properties, so the statements that depend on it
    carry the restriction.) *)
Definition Object_assign (target source : gmap string value)
  : gmap string value := source ∪ target.

(** [DatabaseService.updateIncident(id, updates)]: [null] when no incident is
    stored under [id], the updated (stored) object otherwise. *)
Definition Database_updateIncident (id : string) (updates : gmap string value)
  : M value :=
  let normalized := normalize updates in
  d ← get_db;
  match incidents d !! id with
  | None => mret VNull
  | Some incident =>
      let toAssign := mirror normalized in
      t ← now;
      let incident' :=
        Object_assign (Object_assign incident toAssign)
                      {["updated_at" := VStr (toISOString t)]} in
      _ ← set_incident id incident';
      mret (VObj incident')
  end.

(** [DatabaseService.getIncident(id)]: the stored object or [undefined]. *)
Definition Database_getIncident (id : string) : M value :=
  d ← get_db;
  mret (match incidents d !! id with
        | Some incident => VObj incident
        | None => VUndef
        end).

(** [DatabaseService.addTimelineEvent(incidentId, eventType, eventData)] *)
Definition Database_addTimelineEvent
  (incidentId eventType : string) (eventData : value) : M TimelineEvent :=
  d ← get_db;
  t ← now;
  let event :=
    {| ev_id := length (timeline d) + 1;
       incident_id := incidentId;
       event_type := eventType;
       event_data := eventData;
       ev_created_at := t |} in
  _ ← put_db {| incidents := incidents d;
                timeline := timeline d ++ [event];
                relations := relations d |};
  mret event.

(** [DatabaseService.addMemoryRelation(data)] *)
Definition Database_addMemoryRelation (data : RelationData) : M MemoryRelation :=
  d ← get_db;
  t ← now;
  let relation :=
    {| rel_id := length (relations d) + 1;
       entity_type := d_entity_type data;
       entity_id := d_entity_id data;
       related_type := d_related_type data;
       related_id := d_related_id data;
       relationship := d_relationship data;
       metadata := d_metadata data;
       rel_created_at := t |} in
  _ ← put_db {| incidents := incidents d;
                timeline := timeline d;
                relations := relations d ++ [relation] |};
  mret relation.

(** [Array.prototype.sort] with the comparator
    [(a, b) => key(b) - key(a)]: a stable sort, largest key first. *)
Fixpoint insert_desc {A : Type} (key : A → Z) (x : A) (l : list A) : list A :=
  match l with
  | [] => [x]
  | y :: l' =>
      if (key y <=? key x)%Z then x :: y :: l'
      else y :: insert_desc key x l'
  end.

Fixpoint sort_desc {A : Type} (key : A → Z) (l : list A) : list A :=
  match l with
  | [] => []
  | x :: l' => insert_desc key x (sort_desc key l')
  end.

(** The filter of [DatabaseService.getRelations]. *)
Definition relation_matches (entityType entityId : string) (r : MemoryRelation)
  : bool :=
  (eq_str (entity_type r) entityType && eq_str (entity_id r) entityId)
  || (eq_str (related_type r) entityType && eq_str (related_id r) entityId).

(** [DatabaseService.getRelations(entityType, entityId)] *)
Definition Database_getRelations (entityType entityId : string)
  : M (list MemoryRelation) :=
  d ← get_db;
  mret (sort_desc rel_created_at
          (filter (λ r, relation_matches entityType entityId r = true)
                  (relations d))).

(* ===================================================================== *)
(** * The incident lifecycle manager ([IncidentManager]) *)
(* ===================================================================== *)

(** An object literal. *)
Definition obj (fields : list (string * value)) : value :=
  VObj (list_to_map fields).

(** [IncidentManager.createIncident(alert)].  The reads of [alert]'s
    properties have no effect of their own, and they all throw (when [alert]
    is [undefined] or [null]) or none does; they are done up front. *)
Definition IncidentManager_createIncident (alert : value)
  : M (gmap string value) :=
  u ← uuidv4;
  let incidentId := "inc-" +:+ u in
  a_id ← lift (get alert "id");
  a_fingerprint ← lift (get alert "fingerprint");
  a_summary ← lift (get alert "summary");
  a_labels ← lift (get alert "labels");
  a_description ← lift (get alert "description");
  a_severity ← lift (get alert "severity");
  a_annotations ← lift (get alert "annotations");
  let incident : gmap string value :=
    list_to_map
      [ ("id", VStr incidentId);
        ("alert_id", js_or a_id a_fingerprint);
        ("summary",
          js_or (js_or a_summary (get_opt a_labels "alertname"))
                (VStr "Unknown Alert"));
        ("description", js_or a_description (VStr ""));
        ("severity",
          js_or (js_or a_severity (get_opt a_labels "severity"))
                (VStr "warning"));
        ("status", VStr "open");
        ("labels", js_or a_labels (VObj ∅));
        ("annotations", js_or a_annotations (VObj ∅)) ] in
  dbIncident ← Database_createIncident incidentId incident;
  _ ← Database_addTimelineEvent incidentId "incident_created"
        (obj [("alert", alert); ("source", VStr "prometheus")]);
  t ← now;
  _ ← Database_addMemoryRelation
        {| d_entity_type := VStr "incident";
           d_entity_id := VStr incidentId;
           d_related_type := VStr "alert";
           d_related_id := js_or a_id a_fingerprint;
           d_relationship := VStr "triggered_by";
           d_metadata := obj [("timestamp", VStr (toISOString t))] |};
  mret dbIncident.

(** [IncidentManager.updateIncident(id, updates)] *)
Definition IncidentManager_updateIncident
  (id : string) (updates : gmap string value) : M value :=
  incident ← Database_updateIncident id updates;
  _ ← (if truthy (prop updates "status") then
         let eventType :=
           "status_changed_to_" +:+ ToString (prop updates "status") in
         previousStatus ← lift (get incident "status");
         t ← now;
         _ ← Database_addTimelineEvent id eventType
               (obj [ ("previousStatus", previousStatus);
                      ("newStatus", prop updates "status");
                      ("timestamp", VStr (toISOString t)) ]);
         mret tt
       else mret tt);
  _ ← (if truthy (prop updates "triageResult") then
         hypothesis ← lift (get (prop updates "triageResult") "hypothesis");
         suggestedActions ←
           lift (get (prop updates "triageResult") "suggestedActions");
         _ ← Database_addTimelineEvent id "triaged"
               (obj [ ("hypothesis", hypothesis);
                      ("suggestedActions", suggestedActions) ]);
         mret tt
       else mret tt);
  _ ← (if truthy (prop updates "fixResult") then
         pullRequest ← lift (get (prop updates "fixResult") "pullRequest");
         appliedFixes ← lift (get (prop updates "fixResult") "appliedFixes");
         success ← lift (get (prop updates "fixResult") "success");
         _ ← Database_addTimelineEvent id "fix_applied"
               (obj [ ("pullRequest", pullRequest);
                      ("appliedFixes", appliedFixes);
                      ("success", success) ]);
         mret tt
       else mret tt);
  mret incident.

(** [IncidentManager.linkIncidents(incidentId1, incidentId2, relationship)] *)
Definition IncidentManager_linkIncidents
  (incidentId1 incidentId2 relationship : string) : M unit :=
  t ← now;
  _ ← Database_addMemoryRelation
        {| d_entity_type := VStr "incident";
           d_entity_id := VStr incidentId1;
           d_related_type := VStr "incident";
           d_related_id := VStr incidentId2;
           d_relationship := VStr relationship;
           d_metadata := obj [("timestamp", VStr (toISOString t))] |};
  mret tt.

Section JSON.

(** [JSON.parse], a built-in the model does not spell out: the parsed value,
    or the SyntaxError it throws. *)
Variable JSON_parse : string → result value.

(** [typeof v === 'string' ? JSON.parse(v) : v] *)
Definition parse_if_string (v : value) : result value :=
  match v with
  | VStr s => JSON_parse s
  | _ => Ok v
  end.

(** [incident.k = v] on the object stored under [id]. *)
Definition assign (id : string) (incident : gmap string value)
  (k : string) (v : value) : M (gmap string value) :=
  let incident' := <[k := v]> incident in
  _ ← set_incident id incident';
  mret incident'.

(** [IncidentManager.getIncident(id)].  The object it normalises is the
    stored one, so every assignment also lands in the store. *)
Definition IncidentManager_getIncident (id : string) : M value :=
  found ← Database_getIncident id;
  match found with
  | VObj incident =>
      v ← lift (parse_if_string (prop incident "labels"));
      incident ← assign id incident "labels" v;
      v ← lift (parse_if_string (prop incident "annotations"));
      incident ← assign id incident "annotations" v;
      v ← lift (parse_if_string (prop incident "triage_result"));
      incident ← assign id incident "triage_result" v;
      v ← lift (parse_if_string (prop incident "fix_result"));
      incident ← assign id incident "fix_result" v;
      incident ←
        (if is_undefined (prop incident "triage_result")
            && negb (is_undefined (prop incident "triageResult"))
         then assign id incident "triage_result" (prop incident "triageResult")
         else mret incident);
      incident ←
        (if is_undefined (prop incident "fix_result")
            && negb (is_undefined (prop incident "fixResult"))
         then assign id incident "fix_result" (prop incident "fixResult")
         else mret incident);
      incident ←
        assign id incident "triageResult"
          (nullish (prop incident "triage_result") (prop incident "triageResult"));
      incident ←
        assign id incident "fixResult"
          (nullish (prop incident "fix_result") (prop incident "fixResult"));
      mret (VObj incident)
  | other => mret other
  end.

End JSON.

(* ===================================================================== *)
(** * The alert watcher ([WatcherAgent]) and the orchestrator's wiring *)
(* ===================================================================== *)

#[global] Instance result_ret : MRet result := λ A a, Ok a.
#[global] Instance result_bind : MBind result := λ A B f r,
  match r with
  | Ok a => f a
  | Throw e => Throw e
  end.

(** The [Alert] interface of [watcher-agent.ts]. *)
Record Alert : Type := mkAlert {
  fingerprint : string;
  labels : gmap string string;
  annotations : gmap string string;
  startsAt : string;
  endsAt : option string;
  status : option string
}.

(** An [Alert] as the JavaScript object the emitter passes on. *)
Definition Alert_value (a : Alert) : value :=
  VObj (list_to_map
          ([ ("fingerprint", VStr (fingerprint a));
             ("labels", VObj (VStr <$> labels a));
             ("annotations", VObj (VStr <$> annotations a));
             ("startsAt", VStr (startsAt a)) ]
           ++ match endsAt a with Some e => [("endsAt", VStr e)] | None => [] end
           ++ match status a with Some s => [("status", VStr s)] | None => [] end)%list).

(** Base64 of a byte sequence, with padding. *)
Definition b64_alphabet : string :=
  "ABCDEFGHIJKLMNOPQRSTUVWXYZabcdefghijklmnopqrstuvwxyz0123456789+/".

Definition b64_digit (n : N) : string :=
  match String.get (N.to_nat n) b64_alphabet with
  | Some c => String c ""
  | None => ""
  end.

Fixpoint b64_encode (bytes : list N) : string :=
  match bytes with
  | [] => ""
  | [a] =>
      b64_digit (N.shiftr a 2) +:+
      b64_digit (N.shiftl (N.land a 3) 4) +:+ "=="
  | [a; b] =>
      b64_digit (N.shiftr a 2) +:+
      b64_digit (N.lor (N.shiftl (N.land a 3) 4) (N.shiftr b 4)) +:+
      b64_digit (N.shiftl (N.land b 15) 2) +:+ "="
  | a :: b :: c :: rest =>
      b64_digit (N.shiftr a 2) +:+
      b64_digit (N.lor (N.shiftl (N.land a 3) 4) (N.shiftr b 4)) +:+
      b64_digit (N.lor (N.shiftl (N.land b 15) 2) (N.shiftr c 6)) +:+
      b64_digit (N.land c 63) +:+
      b64_encode rest
  end.

(** [Buffer.from(s).toString('base64')]; a string is held as its UTF-8 bytes. *)
Definition Buffer_base64 (s : string) : string :=
  b64_encode (map N_of_ascii (list_ascii_of_string s)).

(** [WatcherAgent.generateFingerprint(alert)] *)
Definition generateFingerprint (alert : value) : result string :=
  a_labels ← get alert "labels";
  alertname ← get a_labels "alertname";
  instance ← get a_labels "instance";
  activeAt ← get alert "activeAt";
  mret (Buffer_base64
          (ToString alertname +:+ "-" +:+
           ToString (js_or instance (VStr "unknown")) +:+ "-" +:+
           ToString activeAt)).

(** A string is held as its UTF-8 bytes: a byte [10xxxxxx] continues the
    character that an earlier byte started. *)
Definition is_continuation (c : ascii) : bool :=
  let n := nat_of_ascii c in (128 <=? n)%nat && (n <? 192)%nat.

(** The characters (code points) of a string, each with all its bytes, and
    before them the continuation bytes that no character of the string
    started (a string has none). *)
Fixpoint code_points (bytes : list ascii) : list ascii * list string :=
  match bytes with
  | [] => ([], [])
  | c :: rest =>
      let '(continuation, points) := code_points rest in
      if is_continuation c then (c :: continuation, points)
      else ([], string_of_list_ascii (c :: continuation) :: points)
  end.

(** What [for (const x of v)] runs over: the items of an array, the
    characters (code points) of a string; anything else is not iterable. *)
Definition iterate (v : value) : result (list value) :=
  match v with
  | VArr l => Ok l
  | VStr s => Ok (map VStr (code_points (list_ascii_of_string s)).2)
  | _ => Throw (TypeError "not iterable")
  end.

(** The watcher's state is its [processedAlerts] set; an operation returns the
    new set and the alerts it emitted on [alertEmitter], in order. *)

(** [WatcherAgent.injectAlert(alert)] *)
Definition injectAlert (alert : Alert) (processedAlerts : gset string)
  : gset string * list value :=
  if decide (fingerprint alert ∈ processedAlerts)
  then (processedAlerts, [])
  else ({[fingerprint alert]} ∪ processedAlerts, [Alert_value alert]).

(** The body of the polling loop for one alert of the fetched list. *)
Definition poll_alert (alert : value) (processedAlerts : gset string)
  : result (gset string * list value) :=
  state ← get alert "state";
  if eq_str state "firing" then
    fp ← generateFingerprint alert;
    if decide (fp ∈ processedAlerts) then mret (processedAlerts, [])
    else
      a_labels ← get alert "labels";
      a_annotations ← get alert "annotations";
      activeAt ← get alert "activeAt";
      mret ({[fp]} ∪ processedAlerts,
            [obj [ ("fingerprint", VStr fp);
                   ("labels", a_labels);
                   ("annotations", a_annotations);
                   ("startsAt", activeAt);
                   ("status", VStr "firing") ]])
  else mret (processedAlerts, []).

(** The [for] loop of a polling cycle: an exception leaves the loop (it is
    caught and logged around it); what was added and emitted before stays. *)
Fixpoint poll_alerts (alerts : list value) (processedAlerts : gset string)
  : gset string * list value :=
  match alerts with
  | [] => (processedAlerts, [])
  | alert :: rest =>
      match poll_alert alert processedAlerts with
      | Throw _ => (processedAlerts, [])
      | Ok (processed1, emitted1) =>
          let '(processed2, emitted2) := poll_alerts rest processed1 in
          (processed2, (emitted1 ++ emitted2)%list)
      end
  end.

(** One tick of the interval set by [WatcherAgent.startPolling].
    [response_data] is [response.data] of the request to
    [/api/v1/alerts], or the request's failure. *)
Definition pollCycle (response_data : result value)
  (processedAlerts : gset string) : gset string * list value :=
  match response_data with
  | Throw _ => (processedAlerts, [])
  | Ok data =>
      match iterate (js_or (get_opt (get_opt data "data") "alerts") (VArr [])) with
      | Throw _ => (processedAlerts, [])
      | Ok alerts => poll_alerts alerts processedAlerts
      end
  end.

(** The first step of the orchestrator's ['alert'] listener: a falsy alert is
    dropped, any other becomes an incident.  The steps that follow in the
    source (notification, triage, [updateIncident] of this incident) create no
    incident; the listener catches and logs every exception. *)
Definition on_alert (alert : value) : M unit := λ w,
  if truthy alert
  then (Ok tt, snd (IncidentManager_createIncident alert w))
  else (Ok tt, w).

(** [alertEmitter.emit('alert', alert)] for each alert of a list, in order. *)
Fixpoint emit_all (alerts : list value) : M unit :=
  match alerts with
  | [] => mret tt
  | alert :: rest => _ ← on_alert alert; emit_all rest
  end.

(** An HTTP response: status code and JSON body. *)
Record HttpResponse : Type := mkResponse {
  status_code : nat;
  body : value
}.

(** [data.alerts || []] of the parsed request body [data], as the handler's
    loop runs over it. *)
Definition webhook_alerts (parsed : result value) : result (list value) :=
  data ← parsed;
  alerts ← get data "alerts";
  iterate (js_or alerts (VArr [])).

(** The [POST /webhook/prometheus] handler, from the parsed request body (or
    the exception [JSON.parse] threw): every alert of the payload is emitted
    as it stands. *)
Definition webhook_prometheus (parsed : result value) : M HttpResponse :=
  match webhook_alerts parsed with
  | Ok alerts =>
      _ ← emit_all alerts;
      mret {| status_code := 200; body := obj [("status", VStr "received")] |}
  | Throw _ =>
      mret {| status_code := 400; body := obj [("error", VStr "Invalid JSON")] |}
  end.

(** The orchestrator process: the store and the watcher's set. *)
Record Orchestrator : Type := mkOrchestrator {
  world : World;
  processedAlerts : gset string
}.

(** An alert handed to [watcherAgent.injectAlert], and a polling tick, each
    followed by the delivery of what was emitted. *)
Definition deliver (out : gset string * list value) (o : Orchestrator)
  : Orchestrator :=
  {| world := snd (emit_all (snd out) (world o));
     processedAlerts := fst out |}.

Definition inject (alert : Alert) (o : Orchestrator) : Orchestrator :=
  deliver (injectAlert alert (processedAlerts o)) o.

Definition poll (response_data : result value) (o : Orchestrator)
  : Orchestrator :=
  deliver (pollCycle response_data (processedAlerts o)) o.

(** A webhook request, which bypasses the watcher. *)
Definition webhook (parsed : result value) (o : Orchestrator) : Orchestrator :=
  {| world := snd (webhook_prometheus parsed (world o));
     processedAlerts := processedAlerts o |}.

(* ===================================================================== *)
(** * The triage pipeline ([TriageAgent]) *)
(* ===================================================================== *)

(** The double-quote character, for the texts that contain it. *)
Definition dq : string := String "034"%char "".

(** [hay.includes(needle)] on strings. *)
Fixpoint String_includes (hay needle : string) : bool :=
  if String.prefix needle hay then true
  else match hay with
       | EmptyString => false
       | String _ rest => String_includes rest needle
       end.

(** [String.prototype.toLowerCase], on the ASCII letters (a string is held as
    its UTF-8 bytes; the bytes of other characters stay as they are). *)
Definition lower_ascii (c : ascii) : ascii :=
  let n := nat_of_ascii c in
  if (65 <=? n)%nat && (n <=? 90)%nat then ascii_of_nat (n + 32) else c.

Fixpoint toLowerCase (s : string) : string :=
  match s with
  | EmptyString => EmptyString
  | String c rest => String (lower_ascii c) (toLowerCase rest)
  end.

(** [v?.includes(needle)] read as a condition: [undefined] (falsy) when [v] is
    nullish, the substring test on a string, the membership test on an array;
    any other value has no [includes] method to call. *)
Definition includes_method (v : value) (needle : string) : result bool :=
  match v with
  | VUndef | VNull => Ok false
  | VStr s => Ok (String_includes s needle)
  | VArr l => Ok (existsb (λ x, eq_str x needle) l)
  | _ => Throw (TypeError "includes is not a function")
  end.

(** [Math.min] on two Numbers. *)
Definition Math_min (a b : float) : float :=
  if PrimFloat.is_nan a || PrimFloat.is_nan b then PrimFloat.nan
  else if PrimFloat.ltb a b then a
  else if PrimFloat.ltb b a then b
  else if PrimFloat.get_sign a then a else b.

Record GitCommit : Type := mkCommit {
  sha : string;
  message : string;
  author : string;
  date : string;
  url : string
}.

Record Runbook : Type := mkRunbook {
  rb_id : string;
  title : string;
  keywords : list string;
  steps : list string
}.

(** The [Hypothesis] interface.  [suggestedFix] is [None] when the source
    leaves it [undefined] (the first runbook has no step). *)
Record TriageHypothesis : Type := mkHypothesis {
  primaryCause : string;
  confidence : float;
  evidence : list string;
  suggestedFix : option string
}.

(** The [context] argument of [generateHypothesis]; [None] is a property that
    is [undefined].  ([metrics] is not read.) *)
Record TriageContext : Type := mkContext {
  changes : option (list GitCommit);
  runbooks : option (list Runbook)
}.

Definition initial_hypothesis : TriageHypothesis :=
  {| primaryCause := "Unknown";
     confidence := 0%float;
     evidence := [];
     suggestedFix := Some "" |}.

(** The first block of [generateHypothesis]: the analysis by alert type. *)
Definition analyze_alert_type (alert : value) : result TriageHypothesis :=
  a_labels ← get alert "labels";
  let alertname := get_opt a_labels "alertname" in
  isMemory ← includes_method alertname "Memory";
  if isMemory : bool then
    mret {| primaryCause := "Memory exhaustion or leak";
            confidence := 0.8%float;
            evidence := ["Alert name contains " +:+ dq +:+ "Memory" +:+ dq];
            suggestedFix := Some "Restart affected service or scale horizontally" |}
  else
    isCPU ← includes_method alertname "CPU";
    if isCPU : bool then
      mret {| primaryCause := "High CPU utilization";
              confidence := 0.75%float;
              evidence := ["Alert name contains " +:+ dq +:+ "CPU" +:+ dq];
              suggestedFix := Some "Optimize CPU-intensive operations or scale up" |}
    else
      severity ← get alert "severity";
      if eq_str severity "critical" then
        mret {| primaryCause := "Service outage or critical failure";
                confidence := 0.7%float;
                evidence := ["Alert severity is critical"];
                suggestedFix := Some "Immediate investigation and potential rollback" |}
      else mret initial_hypothesis.

(** The second block: a recent change. *)
Definition correlate_changes (changes : option (list GitCommit))
  (h : TriageHypothesis) : TriageHypothesis :=
  match changes with
  | Some (recentChange :: _) =>
      {| primaryCause := primaryCause h;
         confidence := Math_min (confidence h + 0.1)%float 1.0%float;
         evidence :=
           (evidence h ++
            ["Recent commit: " +:+ dq +:+ message recentChange +:+ dq +:+
             " by " +:+ author recentChange])%list;
         suggestedFix := suggestedFix h |}
  | _ => h
  end.

(** The third block: a matching runbook. *)
Definition apply_runbooks (runbooks : option (list Runbook))
  (h : TriageHypothesis) : TriageHypothesis :=
  match runbooks with
  | Some (first :: rest) =>
      {| primaryCause := primaryCause h;
         confidence := Math_min (confidence h + 0.1)%float 1.0%float;
         evidence :=
           (evidence h ++
            ["Found " +:+ pretty (length (first :: rest)) +:+
             " relevant runbook(s)"])%list;
         suggestedFix := head (steps first) |}
  | _ => h
  end.

(** [TriageAgent.generateHypothesis(alert, context)] *)
Definition generateHypothesis (alert : value) (context : TriageContext)
  : result TriageHypothesis :=
  h ← analyze_alert_type alert;
  mret (apply_runbooks (runbooks context)
          (correlate_changes (changes context) h)).

(** [description] is [None] when it is [undefined]. *)
Record SuggestedAction : Type := mkAction {
  action_type : string;
  description : option string;
  automated : bool;
  runbookId : option string
}.

(** [TriageAgent.generateSuggestedActions(hypothesis, runbooks)] *)
Definition generateSuggestedActions (hypothesis : TriageHypothesis)
  (runbooks : list Runbook) : list SuggestedAction :=
  ([ {| action_type := "create_ticket";
        description := Some "Create Jira ticket for tracking";
        automated := true;
        runbookId := None |} ]
   ++ match runbooks with
      | first :: _ =>
          [ {| action_type := "follow_runbook";
               description := Some ("Follow runbook: " +:+ title first);
               automated := false;
               runbookId := Some (rb_id first) |} ]
      | [] => []
      end
   ++ (if PrimFloat.ltb 0.7%float (confidence hypothesis) then
         [ {| action_type := "apply_fix";
              description := suggestedFix hypothesis;
              automated := PrimFloat.ltb 0.8%float (confidence hypothesis);
              runbookId := None |} ]
       else [])
   ++ (if PrimFloat.ltb (confidence hypothesis) 0.5%float then
         [ {| action_type := "escalate";
              description := Some "Escalate to on-call engineer";
              automated := true;
              runbookId := None |} ]
       else []))%list.

(** The runbooks [searchRunbooks] chooses from. *)
Definition mockRunbooks : list Runbook :=
  [ {| rb_id := "rb-001";
       title := "High Memory Usage Mitigation";
       keywords := ["memory"; "oom"; "resource"];
       steps := [ "Identify memory-intensive processes";
                  "Check for memory leaks in recent deployments";
                  "Consider scaling horizontally";
                  "Implement memory limits if not present" ] |};
    {| rb_id := "rb-002";
       title := "Service Unavailable Response";
       keywords := ["service"; "unavailable"; "503"; "down"];
       steps := [ "Check service health endpoints";
                  "Verify dependencies are accessible";
                  "Review recent configuration changes";
                  "Consider rolling back recent deployments" ] |};
    {| rb_id := "rb-003";
       title := "Database Connection Pool Exhaustion";
       keywords := ["database"; "connection"; "pool"; "timeout"];
       steps := [ "Check current connection pool metrics";
                  "Identify long-running queries";
                  "Increase pool size if needed";
                  "Implement connection pooling best practices" ] |} ].

(** [TriageAgent.searchRunbooks(keywords)], for keywords that are strings (as
    label values are), here [alert_keywords]: a runbook matches when one of
    its keywords occurs in a non-empty lower-cased keyword of the alert. *)
Definition searchRunbooks (alert_keywords : list string) : list Runbook :=
  List.filter
    (λ runbook,
       existsb (λ keyword,
                  existsb (λ k, negb (String.eqb k "")
                                && String_includes (toLowerCase k) keyword)
                          alert_keywords)
               (keywords runbook))
    mockRunbooks.

(* ===================================================================== *)
(** * The remediation pipeline ([FixerAgent]) *)
(* ===================================================================== *)

(** What [applyFix] reads of the triage result it is given.  [tr_labels] is
    [triageResult.labels], a property [triageAlert] does not set. *)
Record TriageResult : Type := mkTriageResult {
  alertId : value;
  tr_summary : value;
  tr_severity : value;
  tr_labels : value;
  hypothesis : TriageHypothesis;
  suggestedActions : list SuggestedAction;
  tr_runbooks : list Runbook
}.

Record PatchFile : Type := mkPatchFile {
  pf_path : string;
  pf_content : string;
  pf_action : string
}.

Definition nl : string := String "010"%char "".

(** [generateMemoryPatch()], [generateScalePatch()], [generateTimeoutPatch()] *)
Definition generateMemoryPatch : string :=
  join nl
    [ "apiVersion: apps/v1"; "kind: Deployment"; "metadata:"; "  name: app";
      "spec:"; "  template:"; "    spec:"; "      containers:";
      "      - name: app"; "        resources:"; "          limits:";
      "            memory: " +:+ dq +:+ "2Gi" +:+ dq;
      "          requests:";
      "            memory: " +:+ dq +:+ "1Gi" +:+ dq ].

Definition generateScalePatch : string :=
  join nl
    [ "apiVersion: apps/v1"; "kind: Deployment"; "metadata:"; "  name: app";
      "spec:"; "  replicas: 3"; "  template:"; "    spec:";
      "      containers:"; "      - name: app" ].

Definition generateTimeoutPatch : string :=
  join nl
    [ "server:"; "  timeout: 60"; "database:"; "  connectionTimeout: 30";
      "  queryTimeout: 10"; "http:"; "  client:"; "    timeout: 30" ].

(** [generatePatch(issue, suggestedFix).files]; [suggestedFix.toLowerCase()]
    raises a TypeError when [suggestedFix] is [undefined]. *)
Definition generatePatch (suggestedFix : option string) : result (list PatchFile) :=
  match suggestedFix with
  | None => Throw (TypeError "Cannot read properties of undefined: toLowerCase")
  | Some text =>
      if String_includes (toLowerCase text) "memory" then
        Ok [ {| pf_path := "k8s/deployment.yaml";
                pf_content := generateMemoryPatch;
                pf_action := "update" |} ]
      else if String_includes (toLowerCase text) "scale" then
        Ok [ {| pf_path := "k8s/deployment.yaml";
                pf_content := generateScalePatch;
                pf_action := "update" |} ]
      else if String_includes (toLowerCase text) "timeout" then
        Ok [ {| pf_path := "config/app.yaml";
                pf_content := generateTimeoutPatch;
                pf_action := "update" |} ]
      else Ok []
  end.

(** The request [createPullRequest] is given.  Its [body], the text
    [generatePRBody] renders, is read by GitHub alone and is left out. *)
Record PullRequestParams : Type := mkParams {
  pr_title : string;
  pr_branch : string;
  pr_files : list PatchFile
}.

(** What [createPullRequest] returns. *)
Record PullRequest : Type := mkPullRequest {
  pull_url : value;
  pull_number : value;
  pull_state : value;
  pull_branch : string
}.

(** What [createJiraTicket] returns: [ticket_status] is ['created'],
    ['skipped'] (no credentials) or ['failed'] (the request failed). *)
Record TicketResult : Type := mkTicket {
  ticket_status : string;
  ticket_key : value;
  ticket_url : string
}.

(** The collaborators of a remediation pass, by the position [i] of the
    action in the approved batch: the clock [Date.now()] reads, what
    [createPullRequest] does with its request (it returns the pull request, or
    rethrows the failure of a GitHub call after logging it), what
    [createJiraTicket] returns (it catches the failure of the Jira call and
    reports it in the status), and the answer to [verifyFix]'s query of the
    active alerts ([response.data], or the request's failure). *)
Record FixerEnv : Type := mkFixerEnv {
  Date_now : nat → Z;
  createPullRequest : nat → PullRequestParams → result PullRequest;
  createJiraTicket : nat → TicketResult;
  active_alerts : result value
}.

(** An entry of [appliedFixes], by its [type]. *)
Inductive AppliedFix : Type :=
| PullRequestFix (fix_url : value) (fix_status : string)
| RollbackFix (service : value) (version : string) (fix_status : string)
| RestartFix (service : value) (fix_status : string)
| ScaleFix (service : value) (replicas : Z) (fix_status : string)
| JiraTicketFix (ticket : value) (fix_url : string) (fix_status : string).

Definition fix_type (f : AppliedFix) : string :=
  match f with
  | PullRequestFix _ _ => "pull_request"
  | RollbackFix _ _ _ => "rollback"
  | RestartFix _ _ => "restart"
  | ScaleFix _ _ _ => "scale"
  | JiraTicketFix _ _ _ => "jira_ticket"
  end.

(** The [results] object of [applyFix]. *)
Record FixResult : Type := mkFixResult {
  fr_alertId : value;
  appliedFixes : list AppliedFix;
  pullRequest : option PullRequest;
  success : bool;
  verificationStatus : string
}.

(** [triageResult.labels?.service || 'unknown'] *)
Definition service_of (triageResult : TriageResult) : value :=
  js_or (get_opt (tr_labels triageResult) "service") (VStr "unknown").

(** One turn of the loop of [applyFix]: the [switch] on the action's type.
    It returns the updated [results], or the exception that leaves the loop
    together with [results] as they were. *)
Definition apply_action (env : FixerEnv) (triageResult : TriageResult)
  (i : nat) (action : SuggestedAction) (results : FixResult)
  : result unit * FixResult :=
  let push entry :=
    {| fr_alertId := fr_alertId results;
       appliedFixes := (appliedFixes results ++ [entry])%list;
       pullRequest := pullRequest results;
       success := success results;
       verificationStatus := verificationStatus results |} in
  if String.eqb (action_type action) "apply_fix" then
    match generatePatch (description action) with
    | Throw e => (Throw e, results)
    | Ok [] => (Ok tt, results)
    | Ok files =>
        match createPullRequest env i
                {| pr_title := "[AutoFix] " +:+ ToString (tr_summary triageResult);
                   pr_branch := "autofix/" +:+ ToString (alertId triageResult)
                                +:+ "-" +:+ pretty (Date_now env i);
                   pr_files := files |} with
        | Throw e => (Throw e, results)
        | Ok pr =>
            (Ok tt,
             {| fr_alertId := fr_alertId results;
                appliedFixes :=
                  (appliedFixes results
                   ++ [PullRequestFix (pull_url pr) "created"])%list;
                pullRequest := Some pr;
                success := success results;
                verificationStatus := verificationStatus results |})
        end
    end
  else if String.eqb (action_type action) "rollback" then
    (Ok tt, push (RollbackFix (service_of triageResult) "previous" "rolled_back"))
  else if String.eqb (action_type action) "restart_service" then
    (Ok tt, push (RestartFix (service_of triageResult) "restarted"))
  else if String.eqb (action_type action) "scale_service" then
    (Ok tt, push (ScaleFix (service_of triageResult) (2 * 2) "scaled"))
  else if String.eqb (action_type action) "create_ticket" then
    let ticketResult := createJiraTicket env i in
    (Ok tt, push (JiraTicketFix (ticket_key ticketResult)
                                (ticket_url ticketResult)
                                (ticket_status ticketResult)))
  else (Ok tt, results).

(** The loop [for (const action of actionsToApply)]; [i] is the position of
    the first action of [actions] in the batch. *)
Fixpoint apply_actions (env : FixerEnv) (triageResult : TriageResult)
  (i : nat) (actions : list SuggestedAction) (results : FixResult)
  : result unit * FixResult :=
  match actions with
  | [] => (Ok tt, results)
  | action :: rest =>
      match apply_action env triageResult i action results with
      | (Ok _, results') => apply_actions env triageResult (S i) rest results'
      | (Throw e, results') => (Throw e, results')
      end
  end.

(** [a === b] on values of which at most one is an object of the model's
    state: two objects are then never the same object. *)
Definition strict_eq (a b : value) : bool :=
  match a, b with
  | VUndef, VUndef => true
  | VNull, VNull => true
  | VBool x, VBool y => Bool.eqb x y
  | VNum x, VNum y => String.eqb x y && negb (String.eqb x "NaN")
  | VStr x, VStr y => String.eqb x y
  | _, _ => false
  end.

(** The callback of [alerts.some] in [verifyFix].  The reads of [alert]'s
    properties all throw (on an [alert] that is [undefined] or [null]) or
    none does; they are done up front. *)
Definition still_firing_alert (alertId : value) (alert : value) : result bool :=
  fp ← get alert "fingerprint";
  a_labels ← get alert "labels";
  a_startsAt ← get alert "startsAt";
  a_activeAt ← get alert "activeAt";
  state ← get alert "state";
  let name := ToString (get_opt a_labels "alertname") in
  let idMatch :=
    strict_eq fp alertId
    || eq_str alertId (name +:+ "-" +:+ ToString a_startsAt)
    || eq_str alertId (name +:+ "-" +:+ ToString a_activeAt) in
  mret (idMatch && eq_str state "firing").

(** [Array.prototype.some] with a callback that may throw. *)
Fixpoint Array_some {A : Type} (f : A → result bool) (l : list A)
  : result bool :=
  match l with
  | [] => Ok false
  | x :: rest =>
      match f x with
      | Ok true => Ok true
      | Ok false => Array_some f rest
      | Throw e => Throw e
      end
  end.

(** [verifyFix(alertId).status]: any exception inside is caught and gives
    ['unknown']. *)
Definition verifyFix (env : FixerEnv) (alertId : value) : string :=
  let stillFiring : result bool :=
    data ← active_alerts env;
    inner ← get data "data";
    alerts ← get inner "alerts";
    match js_or alerts (VArr []) with
    | VArr l => Array_some (still_firing_alert alertId) l
    | _ => Throw (TypeError "alerts.some is not a function")
    end in
  match stillFiring with
  | Ok true => "still_firing"
  | Ok false => "resolved"
  | Throw _ => "unknown"
  end.

(** [actionsToApply] of [applyFix]: the suggested actions whose type is among
    the approved ones, in the order of [suggestedActions]. *)
Definition actionsToApply (triageResult : TriageResult)
  (approvedActions : list string) : list SuggestedAction :=
  List.filter
    (λ action, existsb (String.eqb (action_type action)) approvedActions)
    (suggestedActions triageResult).

(** [FixerAgent.applyFix(triageResult, approvedActions)].  The 30 second wait
    before the verification takes time and changes nothing. *)
Definition applyFix (env : FixerEnv) (triageResult : TriageResult)
  (approvedActions : list string) : FixResult :=
  let results :=
    {| fr_alertId := alertId triageResult;
       appliedFixes := [];
       pullRequest := None;
       success := false;
       verificationStatus := "pending" |} in
  match apply_actions env triageResult 0
          (actionsToApply triageResult approvedActions) results with
  | (Ok _, results) =>
      match appliedFixes results with
      | [] => results
      | _ :: _ =>
          let verification := verifyFix env (alertId triageResult) in
          {| fr_alertId := fr_alertId results;
             appliedFixes := appliedFixes results;
             pullRequest := pullRequest results;
             success := String.eqb verification "resolved";
             verificationStatus := verification |}
      end
  | (Throw _, results) =>
      {| fr_alertId := fr_alertId results;
         appliedFixes := appliedFixes results;
         pullRequest := pullRequest results;
         success := false;
         verificationStatus := verificationStatus results |}
  end.

(* ===================================================================== *)
(** * Vocabulary of the statements *)
(* ===================================================================== *)

(** The object [Database_updateIncident] leaves in the store for an incident
    [incident], an update [updates] and the instant [t] it reads. *)
Definition updated (incident updates : gmap string value) (t : instant)
  : gmap string value :=
  Object_assign (Object_assign incident (mirror (normalize updates)))
                {["updated_at" := VStr (toISOString t)]}.

(** The [status] of the incident stored under [id] ([undefined] if none). *)
Definition stored_status (w : World) (id : string) : value :=
  match incidents (db w) !! id with
  | Some incident => prop incident "status"
  | None => VUndef
  end.

(** What an update attaches under a pair of spellings: the value under the
    snake_case name, or else the one under the camelCase name. *)
Definition attached (snake camel : string) (updates : gmap string value)
  : option value :=
  match updates !! snake with
  | Some v => Some v
  | None => updates !! camel
  end.

(** What [getIncident] makes of the stored values [snake] and [camel] of the
    two spellings of an attachment. *)
Definition snake_read (snake camel : value) : value :=
  if is_undefined snake && negb (is_undefined camel) then camel else snake.

Definition camel_read (snake camel : value) : value :=
  nullish (snake_read snake camel) camel.

(** Newest first: no later element has a larger key. *)
Definition newest_first {A : Type} (key : A → Z) : A → A → Prop :=
  λ a b, (key b ≤ key a)%Z.

(** The number of incidents in the orchestrator's store. *)
Definition incident_count (o : Orchestrator) : nat :=
  size (incidents (db (world o))).

(** [Math.min(c + 0.1, 1.0)] when something was found, [c] otherwise. *)
Definition bump (found : bool) (c : float) : float :=
  if found then Math_min (c + 0.1)%float 1.0%float else c.

(** [l && l.length > 0] *)
Definition nonempty {A : Type} (l : option (list A)) : bool :=
  match l with
  | Some (_ :: _) => true
  | _ => false
  end.






(** The [type] of the entry that an action of a given type appends to
    [appliedFixes] when it needs no pull request. *)
Definition direct_fix_type (actionType : string) : option string :=
  if String.eqb actionType "rollback" then Some "rollback"
  else if String.eqb actionType "restart_service" then Some "restart"
  else if String.eqb actionType "scale_service" then Some "scale"
  else if String.eqb actionType "create_ticket" then Some "jira_ticket"
  else None.

(* ===================================================================== *)
(** * Sample inputs *)
(* ===================================================================== *)

(** A clock that advances by a second per reading, and distinct uuids. *)
Definition demo_clock (n : nat) : instant :=
  (1700000000000 + 1000 * Z.of_nat n)%Z.

Definition demo_uuids (n : nat) : string := "0000-" +:+ pretty n.

Definition fresh_world : World :=
  {| db := empty_database; clock := demo_clock; reads := 0;
     uuids := demo_uuids; drawn := 0 |}.

Definition fresh_orchestrator : Orchestrator :=
  {| world := fresh_world; processedAlerts := ∅ |}.

(** The alert of the specification's scenario, as a webhook delivers it. *)
Definition memory_alert : value :=
  obj [ ("fingerprint", VStr "fp-1");
        ("labels", obj [ ("alertname", VStr "HighMemoryUsage");
                         ("severity", VStr "critical") ]);
        ("annotations", obj [("summary", VStr "Memory usage at 95%")]);
        ("startsAt", VStr "2023-11-14T22:00:00.000Z");
        ("status", VStr "firing") ].

(** The same alert, as a caller of [injectAlert] holds it. *)
Definition typed_memory_alert : Alert :=
  {| fingerprint := "fp-1";
     labels := {["alertname" := "HighMemoryUsage"; "severity" := "critical"]};
     annotations := {["summary" := "Memory usage at 95%"]};
     startsAt := "2023-11-14T22:00:00.000Z";
     endsAt := None;
     status := Some "firing" |}.

(** The same alert, in the answer of the alerting backend to a poll. *)
Definition polled_memory_alerts : value :=
  obj [ ("status", VStr "success");
        ("data",
          obj [ ("alerts",
                  VArr [ obj [ ("state", VStr "firing");
                               ("labels",
                                 obj [ ("alertname", VStr "HighMemoryUsage");
                                       ("severity", VStr "critical") ]);
                               ("annotations",
                                 obj [("summary", VStr "Memory usage at 95%")]);
                               ("activeAt", VStr "2023-11-14T22:00:00.000Z") ] ]) ]) ].

(** An alert of critical severity whose name tells of neither memory nor
    CPU, as a webhook delivers it. *)
Definition service_down_alert : value :=
  obj [ ("fingerprint", VStr "fp-2");
        ("labels", obj [ ("alertname", VStr "ServiceDown");
                         ("severity", VStr "critical") ]);
        ("annotations", obj [("summary", VStr "Service is down")]);
        ("startsAt", VStr "2023-11-14T22:00:00.000Z");
        ("status", VStr "firing") ].

(** The alert of the repository's test of missing alert data. *)
Definition bare_alert : value :=
  obj [("id", VStr "test-alert"); ("fingerprint", VStr "test-fp")].

(** An alert with labels only. *)
Definition high_memory_alert : value :=
  obj [ ("labels", obj [ ("alertname", VStr "HighMemoryUsage");
                         ("severity", VStr "critical") ]) ].

(** The store after [memory_alert] became an incident that was resolved. *)
Definition resolved_world : World :=
  snd (IncidentManager_updateIncident "inc-0000-0"
         {["status" := VStr "resolved"]}
         (snd (IncidentManager_createIncident memory_alert fresh_world))).

(** An update that attaches a triage result under its camelCase name. *)
Definition triage_attachment : value :=
  obj [ ("alertId", VStr "fp-1");
        ("hypothesis",
          obj [ ("primaryCause", VStr "Memory exhaustion or leak");
                ("confidence", VNum "0.8") ]);
        ("suggestedActions", VArr []) ].

Definition triaged_update : gmap string value :=
  {["triageResult" := triage_attachment; "status" := VStr "triaged"]}.

(** A [JSON.parse] that rejects every text. *)
Definition no_JSON (text : string) : result value :=
  Throw (SyntaxError "Unexpected token").

(** Collaborators of a remediation pass in which GitHub refuses every
    request, Jira creates the ticket and the alert is no longer active. *)
Definition failing_github : FixerEnv :=
  {| Date_now := λ _, 1700000000000%Z;
     createPullRequest :=
       λ _ _, Throw (OtherError "Request failed with status code 403");
     createJiraTicket := λ _,
       {| ticket_status := "created";
          ticket_key := VStr "OPS-1";
          ticket_url := "https://example.atlassian.net/browse/OPS-1" |};
     active_alerts := Ok (obj [("data", obj [("alerts", VArr [])])]) |}.

(** A triage result that suggests a fix and then a ticket. *)
Definition fix_then_ticket : TriageResult :=
  {| alertId := VStr "fp-1";
     tr_summary := VStr "HighMemoryUsage";
     tr_severity := VStr "critical";
     tr_labels := VUndef;
     hypothesis :=
       {| primaryCause := "Memory exhaustion or leak";
          confidence := 0.8%float;
          evidence := ["Alert name contains " +:+ dq +:+ "Memory" +:+ dq];
          suggestedFix := Some "Restart affected service or scale horizontally" |};
     suggestedActions :=
       [ {| action_type := "apply_fix";
            description := Some "Restart affected service or scale horizontally";
            automated := false; runbookId := None |};
         {| action_type := "create_ticket";
            description := Some "Create Jira ticket for tracking";
            automated := true; runbookId := None |} ];
     tr_runbooks := [] |}.


(* ===================================================================== *)
(** * The store's readers and the rest of the incident manager *)
(* ===================================================================== *)

(** [Array.prototype.sort] with the comparator [(a, b) => key(a) - key(b)]:
    a stable sort, smallest key first.  The comparator is that of
    [sort_desc] for the opposite key, [(a, b) => (-key(b)) - (-key(a))]. *)
Definition sort_asc {A : Type} (key : A → Z) (l : list A) : list A :=
  sort_desc (λ a, (- key a)%Z) l.

(** [DatabaseService.getTimeline(incidentId)].  The rows of the answer are
    the stored objects themselves: each comes with its position in
    [inMemoryStorage.timeline], through which a caller's assignment to the
    row reaches the store. *)
Definition Database_getTimeline (incidentId : string)
  : M (list (nat * TimelineEvent)) :=
  d ← get_db;
  mret (sort_asc (λ row, ev_created_at row.2)
          (filter (λ row, incident_id row.2 = incidentId)
                  (imap pair (timeline d)))).

(** [event.event_data = v] on a row. *)
Definition with_event_data (v : value) (event : TimelineEvent) : TimelineEvent :=
  {| ev_id := ev_id event;
     incident_id := incident_id event;
     event_type := event_type event;
     event_data := v;
     ev_created_at := ev_created_at event |}.

(** The same assignment, on the row stored at position [i]. *)
Definition set_event_data (i : nat) (v : value) : M unit :=
  d ← get_db;
  put_db {| incidents := incidents d;
            timeline := alter (with_event_data v) i (timeline d);
            relations := relations d |}.

(** [Promise.all(calls)] of the promises of asynchronous calls whose bodies
    run one after the other, in the order of the calls: every call runs, also
    after one of them has thrown; the outcome is the list of the results, or
    the first exception. *)
Fixpoint Promise_all {A : Type} (calls : list (M A)) : M (list A) := λ w,
  match calls with
  | [] => (Ok [], w)
  | call :: rest =>
      let '(r, w1) := call w in
      let '(rs, w2) := Promise_all rest w1 in
      (match r, rs with
       | Ok a, Ok l => Ok (a :: l)
       | Throw e, _ => Throw e
       | Ok _, Throw e => Throw e
       end, w2)
  end.

(** The object stored under an id, as [filter(Boolean)] keeps it: it is
    truthy; [undefined] (no such incident) is dropped.  The keys of the
    [incidents] map are strings. *)
Definition stored_object (d : DatabaseService) (id : value) : option value :=
  match id with
  | VStr s => VObj <$> incidents d !! s
  | _ => None
  end.

(** [Array.prototype.slice(0, limit)] for an integer [limit]: a negative
    [limit] counts from the end. *)
Definition slice_to {A : Type} (limit : Z) (l : list A) : list A :=
  if (limit <? 0)%Z then take (Z.to_nat (Z.of_nat (length l) + limit)) l
  else take (Z.to_nat limit) l.

Section Readers.

(** [JSON.parse] and [JSON.stringify], built-ins the model does not spell
    out.  [JSON.stringify] returns a string, or [undefined] (for [undefined]). *)
Variable JSON_parse : string → result value.
Variable JSON_stringify : value → value.

(** [new Date(v).getTime()] for the [created_at] of a stored incident (the
    text [toISOString] gave), another built-in left abstract. *)
Variable Date_getTime : value → Z.

(** The callback of [timeline.map] in [IncidentManager.getTimeline], run over
    the rows in order: an exception of [JSON.parse] leaves the loop, the rows
    parsed before it stay parsed in the store. *)
Fixpoint parse_events (rows : list (nat * TimelineEvent))
  : M (list TimelineEvent) :=
  match rows with
  | [] => mret []
  | (i, event) :: rest =>
      v ← lift (parse_if_string JSON_parse (event_data event));
      _ ← set_event_data i v;
      events ← parse_events rest;
      mret (with_event_data v event :: events)
  end.

(** [IncidentManager.getTimeline(incidentId)] *)
Definition IncidentManager_getTimeline (incidentId : string)
  : M (list TimelineEvent) :=
  rows ← Database_getTimeline incidentId;
  parse_events rows.

(** [id => this.getIncident(id)] for a [related_id]; an id that is not a
    string is the key of no incident. *)
Definition getIncident_of (id : value) : M value :=
  match id with
  | VStr s => IncidentManager_getIncident JSON_parse s
  | _ => mret VUndef
  end.

(** [IncidentManager.getRelatedIncidents(incidentId)].  Each call of
    [getIncident] returns the stored object, or [undefined]; the objects of
    the answer are read here once all the calls have run, in the state the
    last of them left them in. *)
Definition IncidentManager_getRelatedIncidents (incidentId : string)
  : M (list value) :=
  found ← Database_getRelations "incident" incidentId;
  let relatedIds :=
    map related_id
        (filter (λ r, eq_str (related_type r) "incident" = true) found) in
  match relatedIds with
  | [] => mret []
  | _ :: _ =>
      _ ← Promise_all (map getIncident_of relatedIds);
      d ← get_db;
      mret (omap (stored_object d) relatedIds)
  end.

(** [IncidentManager.resolveIncident(id, resolution)] *)
Definition IncidentManager_resolveIncident (id : string) (resolution : value)
  : M value :=
  let updates : gmap string value :=
    list_to_map [ ("status", VStr "resolved");
                  ("resolution", JSON_stringify resolution) ] in
  incident ← IncidentManager_updateIncident id updates;
  t ← now;
  _ ← Database_addTimelineEvent id "resolved"
        (obj [ ("resolution", resolution);
               ("timestamp", VStr (toISOString t)) ]);
  mret incident.

(** [Array.from(this.inMemoryStorage.incidents.values())].  A [Map] lists its
    values in the order of insertion of their keys, an order the model of the
    store does not record: [keys] is that list of the stored ids. *)
Definition Map_values (keys : list string)
  (m : gmap string (gmap string value)) : list (gmap string value) :=
  omap (λ k, m !! k) keys.

(** [DatabaseService.getIncidents(filters)], with [filters] as passed
    ([{}] stands for an omitted argument).  [===] is [strict_eq]. *)
Definition Database_getIncidents (keys : list string) (filters : value)
  : M (list (gmap string value)) :=
  d ← get_db;
  let all := Map_values keys (incidents d) in
  f_status ← lift (get filters "status");
  let by_status :=
    if truthy f_status
    then List.filter (λ i, strict_eq (prop i "status") f_status) all
    else all in
  f_severity ← lift (get filters "severity");
  let by_severity :=
    if truthy f_severity
    then List.filter (λ i, strict_eq (prop i "severity") f_severity) by_status
    else by_status in
  mret (sort_desc (λ i, Date_getTime (prop i "created_at")) by_severity).

(** [IncidentManager.getSimilarIncidents(incident, limit)], for an integer
    [limit] (5 when omitted). *)
Definition IncidentManager_getSimilarIncidents (keys : list string)
  (incident : value) (limit : Z) : M (list (gmap string value)) :=
  severity ← lift (get incident "severity");
  similarIncidents ← Database_getIncidents keys (obj [("severity", severity)]);
  id ← lift (get incident "id");
  mret (slice_to limit
          (List.filter (λ i, negb (strict_eq (prop i "id") id))
                       similarIncidents)).

End Readers.

(** A call on the incident manager, as a client of the class makes it. *)
Inductive Call : Type :=
| Call_createIncident (alert : value)
| Call_updateIncident (id : string) (updates : gmap string value)
| Call_getIncident (id : string)
| Call_getTimeline (incidentId : string)
| Call_getRelatedIncidents (incidentId : string)
| Call_linkIncidents (incidentId1 incidentId2 relationship : string)
| Call_resolveIncident (id : string) (resolution : value).

Section Calls.
Variable JSON_parse : string → result value.
Variable JSON_stringify : value → value.

(** The state a call leaves, whether it returns or throws. *)
Definition run_call (c : Call) (w : World) : World :=
  match c with
  | Call_createIncident alert => snd (IncidentManager_createIncident alert w)
  | Call_updateIncident id updates =>
      snd (IncidentManager_updateIncident id updates w)
  | Call_getIncident id => snd (IncidentManager_getIncident JSON_parse id w)
  | Call_getTimeline id => snd (IncidentManager_getTimeline JSON_parse id w)
  | Call_getRelatedIncidents id =>
      snd (IncidentManager_getRelatedIncidents JSON_parse id w)
  | Call_linkIncidents a b relationship =>
      snd (IncidentManager_linkIncidents a b relationship w)
  | Call_resolveIncident id resolution =>
      snd (IncidentManager_resolveIncident JSON_stringify id resolution w)
  end.

Definition run_calls (calls : list Call) (w : World) : World :=
  foldl (λ w c, run_call c w) w calls.

End Calls.

(** Oldest first: no later element has a smaller key. *)
Definition oldest_first {A : Type} (key : A → Z) : A → A → Prop :=
  λ a b, (key a ≤ key b)%Z.

(** [JSON.stringify] on the strings that need no escape (the samples give it
    no other value). *)
Definition sample_stringify (v : value) : value :=
  match v with
  | VStr s => VStr (dq +:+ s +:+ dq)
  | _ => VUndef
  end.

(** The store after [memory_alert] became an incident. *)
Definition open_world : World :=
  snd (IncidentManager_createIncident memory_alert fresh_world).

(** The store after [memory_alert] became an incident twice. *)
Definition two_incidents_world : World :=
  snd (IncidentManager_createIncident memory_alert open_world).

(** The property [k] of the incident stored under [id] ([undefined] if there
    is none). *)
Definition stored_prop (w : World) (id k : string) : value :=
  match incidents (db w) !! id with
  | Some incident => prop incident k
  | None => VUndef
  end.

(** A stored value passes a filter of [getIncidents] when the filter is
    falsy (it is then not applied) or strictly equal to it. *)
Definition passes_filter (wanted actual : value) : bool :=
  negb (truthy wanted) || strict_eq actual wanted.

(** [keys] lists the stored ids, each once. *)
Definition enumerates (keys : list string)
  (m : gmap string (gmap string value)) : Prop :=
  NoDup keys ∧ ∀ k, k ∈ keys ↔ is_Some (m !! k).

(** The stored ids in the order of the keys. *)
Definition sorted_keys (m : gmap string (gmap string value)) : list string :=
  (map_to_list m).*1.

(** [new Date(text).getTime()] on the texts [toISOString] gives for the
    years 0 to 9999, [YYYY-MM-DDTHH:mm:ss.sssZ] (the samples give it no
    other value). *)
Definition number_at (s : string) (start len : nat) : Z :=
  fold_left (λ acc c, (10 * acc + (Z.of_nat (nat_of_ascii c) - 48))%Z)
            (list_ascii_of_string (substring start len s)) 0%Z.

Definition days_from_civil (y m d : Z) : Z :=
  let y := (if (m <=? 2)%Z then y - 1 else y)%Z in
  let era := (y / 400)%Z in
  let yoe := (y - era * 400)%Z in
  let doy := ((153 * (if (2 <? m)%Z then m - 3 else m + 9) + 2) / 5 + d - 1)%Z in
  let doe := (yoe * 365 + yoe / 4 - yoe / 100 + doy)%Z in
  (era * 146097 + doe - 719468)%Z.

Definition sample_getTime (v : value) : Z :=
  match v with
  | VStr s =>
      (days_from_civil (number_at s 0 4) (number_at s 5 2) (number_at s 8 2)
         * 86400000
       + number_at s 11 2 * 3600000 + number_at s 14 2 * 60000
       + number_at s 17 2 * 1000 + number_at s 20 3)%Z
  | _ => 0%Z
  end.

(** No stored event holds a string as its data. *)
Definition events_plain (w : World) : Prop :=
  Forall (λ e, typeof_string (event_data e) = false) (timeline (db w)).

(** The state [w'] extends the state [w]: every incident id of [w] is still
    stored, and the timeline and the relations of [w'] are those of [w]
    followed by new rows that are numbered on from the last one. *)
Definition extends (w w' : World) : Prop :=
  dom (incidents (db w)) ⊆ dom (incidents (db w')) ∧
  (∃ events,
     timeline (db w') = (timeline (db w) ++ events)%list ∧
     map ev_id events = seq (S (length (timeline (db w)))) (length events)) ∧
  (∃ rows,
     relations (db w') = (relations (db w) ++ rows)%list ∧
     map rel_id rows = seq (S (length (relations (db w)))) (length rows)).

(** A computation that only extends the state, and stores no string as the
    data of an event. *)
Definition grows {A : Type} (m : M A) : Prop :=
  ∀ w, events_plain w → events_plain (snd (m w)) ∧ extends w (snd (m w)).

(** An empty store, with any clock and any source of uuids. *)
Definition initial_world (clock : nat → instant) (uuids : nat → string)
  : World :=
  {| db := empty_database; clock := clock; reads := 0;
     uuids := uuids; drawn := 0 |}.

(** The life of an incident after its creation: triage, a read, a link to
    an unknown incident, the resolution, and a resolution of an unknown id
    (which throws). *)
Definition sample_calls : list Call :=
  [ Call_updateIncident "inc-0000-0" triaged_update;
    Call_getIncident "inc-0000-0";
    Call_getTimeline "inc-0000-0";
    Call_linkIncidents "inc-0000-0" "inc-0000-9" "duplicate_of";
    Call_getRelatedIncidents "inc-0000-0";
    Call_resolveIncident "inc-0000-0" (VStr "service restarted");
    Call_resolveIncident "inc-0000-9" (VStr "service restarted") ].

(* ===================================================================== *)
(** * The triage of an alert ([TriageAgent.triageAlert]) *)
(* ===================================================================== *)











(** The alert of [polled_memory_alerts]. *)
Definition firing_memory_alert : value :=
  obj [ ("state", VStr "firing");
        ("labels", obj [ ("alertname", VStr "HighMemoryUsage");
                         ("severity", VStr "critical") ]);
        ("annotations", obj [("summary", VStr "Memory usage at 95%")]);
        ("activeAt", VStr "2023-11-14T22:00:00.000Z") ].

(* ===================================================================== *)
(** * Properties: built-ins and helpers *)
(* ===================================================================== *)

Example toISOString_epoch : toISOString 0%Z = "1970-01-01T00:00:00.000Z".
Proof. vm_compute. reflexivity. Qed.

Example toISOString_2023 :
  toISOString 1700000000123%Z = "2023-11-14T22:13:20.123Z".
Proof. vm_compute. reflexivity. Qed.

Example toISOString_leap :
  toISOString 951782400000%Z = "2000-02-29T00:00:00.000Z".
Proof. vm_compute. reflexivity. Qed.

Example toISOString_before_epoch :
  toISOString (-1)%Z = "1969-12-31T23:59:59.999Z".
Proof. vm_compute. reflexivity. Qed.

Example Buffer_base64_padding :
  Buffer_base64 "a" = "YQ==" ∧ Buffer_base64 "ab" = "YWI=" ∧
  Buffer_base64 "abc" = "YWJj".
Proof. repeat split; vm_compute; reflexivity. Qed.

Example generateFingerprint_polled :
  generateFingerprint
    (obj [ ("labels", obj [("alertname", VStr "HighMemoryUsage")]);
           ("activeAt", VStr "2024-01-01T00:00:00Z") ])
  = Ok "SGlnaE1lbW9yeVVzYWdlLXVua25vd24tMjAyNC0wMS0wMVQwMDowMDowMFo=".
Proof. vm_compute. reflexivity. Qed.

Example Math_min_caps :
  Math_min (0.8 + 0.1)%float 1.0%float = (0.8 + 0.1)%float ∧
  Math_min ((0.8 + 0.1) + 0.1)%float 1.0%float = 1.0%float.
Proof. split; vm_compute; reflexivity. Qed.

Lemma eq_str_spec v s : eq_str v s = true ↔ v = VStr s.
Proof.
  destruct v; simpl; try (split; [discriminate | intros [=] ]).
  rewrite String.eqb_eq. split; [by intros -> | by intros [= ->]].
Qed.

Lemma get_defined v k : v ≠ VUndef → v ≠ VNull → get v k = Ok (get_opt v k).
Proof. by destruct v. Qed.

Lemma get_truthy v k : truthy v = true → get v k = Ok (get_opt v k).
Proof. by destruct v. Qed.

Lemma truthy_prop_Some (o : gmap string value) k :
  truthy (prop o k) = true → o !! k = Some (prop o k).
Proof. unfold prop. by destruct (o !! k). Qed.

Lemma prop_insert_eq (o : gmap string value) k v : prop (<[k := v]> o) k = v.
Proof. unfold prop. by rewrite lookup_insert_eq. Qed.

Lemma prop_insert_ne (o : gmap string value) k k' v :
  k ≠ k' → prop (<[k := v]> o) k' = prop o k'.
Proof. intros. unfold prop. by rewrite lookup_insert_ne. Qed.

(** One step of a computation over the process state. *)
Ltac mstep :=
  unfold mbind, M_bind, mret, M_ret, lift, throw, now, uuidv4, get_db, put_db,
    set_incident;
  cbn [fst snd db clock reads uuids drawn incidents timeline relations
       tick draw with_db].

(** Membership in a list given by its elements. *)
Ltac elem_cases :=
  repeat match goal with
  | H : _ ∈ _ :: _ |- _ => apply elem_of_cons in H as [-> | H]
  | H : _ ∈ [] |- _ => apply elem_of_nil in H; destruct H
  | H : _ ∈ (_ ++ _)%list |- _ => apply elem_of_app in H as [H | H]
  end.

Ltac pick_elem :=
  match goal with
  | |- ∃ a, a ∈ ?l ∧ _ =>
      let rec go l :=
        match l with
        | ?x :: ?l' =>
            first [ exists x; split; [by repeat constructor | by repeat split]
                  | go l' ]
        end in
      go l
  end.

(* ===================================================================== *)
(** * Properties of the persistence store *)
(* ===================================================================== *)

Section Sorting.
Context {A : Type} (key : A → Z).

Lemma insert_desc_perm x l : Permutation (insert_desc key x l) (x :: l).
Proof.
  induction l as [|y l IH]; simpl; [done|].
  destruct (key y <=? key x)%Z; [done|].
  rewrite IH. apply perm_swap.
Qed.

Lemma sort_desc_perm l : Permutation (sort_desc key l) l.
Proof.
  induction l as [|x l IH]; simpl; [done|].
  rewrite insert_desc_perm. by constructor.
Qed.

Lemma insert_desc_sorted x l :
  StronglySorted (newest_first key) l →
  StronglySorted (newest_first key) (insert_desc key x l).
Proof.
  induction 1 as [|y l Hs IH Hall]; simpl.
  - repeat constructor.
  - destruct (key y <=? key x)%Z eqn:E.
    + apply Z.leb_le in E. constructor; [by constructor|].
      constructor; [exact E|].
      eapply Forall_impl; [exact Hall|].
      unfold newest_first. intros z Hz. lia.
    + apply Z.leb_gt in E. constructor; [exact IH|].
      eapply Permutation_Forall; [symmetry; apply insert_desc_perm|].
      constructor; [unfold newest_first; lia | exact Hall].
Qed.

Lemma sort_desc_sorted l : StronglySorted (newest_first key) (sort_desc key l).
Proof.
  induction l as [|x l IH]; simpl; [constructor|].
  by apply insert_desc_sorted.
Qed.

Lemma elem_of_sort_desc x l : x ∈ sort_desc key l ↔ x ∈ l.
Proof. by rewrite sort_desc_perm. Qed.

(** The sort is stable: where no key is smaller than the one before, it
    changes nothing. *)
Lemma sort_desc_sorted_id l :
  StronglySorted (newest_first key) l → sort_desc key l = l.
Proof.
  induction 1 as [|x l Hs IH Hall]; simpl; [done|].
  rewrite IH. destruct l as [|y l]; [done|]. simpl.
  apply Forall_cons in Hall as [Hy _]. unfold newest_first in Hy.
  by rewrite (proj2 (Z.leb_le _ _) Hy).
Qed.

End Sorting.

Lemma relation_matches_spec entityType entityId r :
  relation_matches entityType entityId r = true ↔
  (entity_type r = VStr entityType ∧ entity_id r = VStr entityId)
  ∨ (related_type r = VStr entityType ∧ related_id r = VStr entityId).
Proof.
  unfold relation_matches.
  rewrite orb_true_iff, !andb_true_iff, !eq_str_spec. done.
Qed.

(** C10.  Relation lookup is bidirectional.  [getRelations(entityType,
    entityId)] returns, without changing the store, exactly the stored edges
    whose entity side or whose related side is the queried (type, id) pair,
    newest first; and the edge that [linkIncidents(A, B, relationship)] adds
    is returned both by [getRelations('incident', A)] and by
    [getRelations('incident', B)]. *)
Theorem getRelations_bidirectional :
  (∀ (w : World) (entityType entityId : string),
     ∃ found : list MemoryRelation,
       Database_getRelations entityType entityId w = (Ok found, w) ∧
       (∀ r : MemoryRelation,
          r ∈ found ↔
          r ∈ relations (db w) ∧
          ((entity_type r = VStr entityType ∧ entity_id r = VStr entityId)
           ∨ (related_type r = VStr entityType ∧ related_id r = VStr entityId))) ∧
       StronglySorted (newest_first rel_created_at) found) ∧
  (∀ (w : World) (incidentId1 incidentId2 label : string),
     ∃ (w' : World) (edge : MemoryRelation)
       (found1 found2 : list MemoryRelation),
       IncidentManager_linkIncidents incidentId1 incidentId2 label w
         = (Ok tt, w') ∧
       relations (db w') = (relations (db w) ++ [edge])%list ∧
       entity_id edge = VStr incidentId1 ∧
       related_id edge = VStr incidentId2 ∧
       relationship edge = VStr label ∧
       Database_getRelations "incident" incidentId1 w' = (Ok found1, w') ∧
       Database_getRelations "incident" incidentId2 w' = (Ok found2, w') ∧
       edge ∈ found1 ∧ edge ∈ found2).
Proof.
  split.
  - intros w entityType entityId. eexists. split; [reflexivity|]. split.
    + intros r. rewrite elem_of_sort_desc, list_elem_of_filter.
      rewrite relation_matches_spec. tauto.
    + apply (sort_desc_sorted rel_created_at).
  - intros w a b label.
    eexists _, _, _, _. split; [reflexivity|].
    cbn [db relations with_db tick].
    split; [reflexivity|].
    cbn [entity_id related_id relationship].
    do 3 (split; [reflexivity|]).
    split; [reflexivity|]. split; [reflexivity|].
    cbn [db relations with_db tick].
    split; rewrite elem_of_sort_desc, list_elem_of_filter; split.
    + apply relation_matches_spec. left. done.
    + apply elem_of_app. right. by apply list_elem_of_singleton.
    + apply relation_matches_spec. right. done.
    + apply elem_of_app. right. by apply list_elem_of_singleton.
Qed.

(** ** Key normalisation of an update *)

Lemma normalize_key_lookup_ne camel snake (u : gmap string value) k :
  k ≠ camel → k ≠ snake → normalize_key camel snake u !! k = u !! k.
Proof.
  intros Hc Hs. unfold normalize_key.
  destruct (u !! camel) eqn:E1; [|done].
  destruct (u !! snake) eqn:E2; [done|].
  rewrite lookup_delete_ne by done. by rewrite lookup_insert_ne.
Qed.

Lemma normalize_key_lookup_snake camel snake (u : gmap string value) :
  snake ≠ camel →
  normalize_key camel snake u !! snake = attached snake camel u.
Proof.
  intros Hne. unfold normalize_key, attached.
  destruct (u !! camel) as [v'|] eqn:Ec, (u !! snake) as [v|] eqn:Es;
    simplify_map_eq; done.
Qed.

Lemma normalize_key_lookup_camel camel snake (u : gmap string value) :
  snake ≠ camel →
  normalize_key camel snake u !! camel =
    match u !! snake with Some _ => u !! camel | None => None end.
Proof.
  intros Hne. unfold normalize_key.
  destruct (u !! camel) as [v'|] eqn:Ec, (u !! snake) as [v|] eqn:Es;
    simplify_map_eq; done.
Qed.

Lemma mirror_key_lookup_ne snake camel (u : gmap string value) k :
  k ≠ camel → mirror_key snake camel u !! k = u !! k.
Proof.
  intros Hc. unfold mirror_key.
  destruct (u !! snake) eqn:E1; [|done].
  by rewrite lookup_insert_ne.
Qed.

Lemma mirror_key_lookup_camel snake camel (u : gmap string value) :
  mirror_key snake camel u !! camel = attached snake camel u.
Proof.
  unfold mirror_key, attached.
  destruct (u !! snake) as [v|] eqn:Es; simplify_map_eq; done.
Qed.

Lemma toAssign_lookup_other updates k :
  k ≠ "triageResult" → k ≠ "triage_result" →
  k ≠ "fixResult" → k ≠ "fix_result" →
  mirror (normalize updates) !! k = updates !! k.
Proof.
  intros. unfold mirror, normalize.
  rewrite !mirror_key_lookup_ne by done.
  by rewrite !normalize_key_lookup_ne by done.
Qed.

(** Whichever spelling an update uses, what is assigned carries the
    attachment under both. *)
Lemma toAssign_triage updates :
  mirror (normalize updates) !! "triage_result"
    = attached "triage_result" "triageResult" updates ∧
  mirror (normalize updates) !! "triageResult"
    = attached "triage_result" "triageResult" updates.
Proof.
  unfold mirror, normalize. split.
  - rewrite !mirror_key_lookup_ne by done.
    rewrite normalize_key_lookup_ne by done.
    by rewrite normalize_key_lookup_snake.
  - rewrite mirror_key_lookup_ne by done.
    rewrite mirror_key_lookup_camel. unfold attached.
    rewrite !(normalize_key_lookup_ne "fixResult" "fix_result") by done.
    rewrite normalize_key_lookup_snake, normalize_key_lookup_camel by done.
    unfold attached.
    destruct (updates !! "triage_result"), (updates !! "triageResult"); done.
Qed.

Lemma toAssign_fix updates :
  mirror (normalize updates) !! "fix_result"
    = attached "fix_result" "fixResult" updates ∧
  mirror (normalize updates) !! "fixResult"
    = attached "fix_result" "fixResult" updates.
Proof.
  unfold mirror, normalize. split.
  - rewrite mirror_key_lookup_ne by done.
    rewrite mirror_key_lookup_ne by done.
    rewrite normalize_key_lookup_snake by done. unfold attached.
    by rewrite !normalize_key_lookup_ne by done.
  - rewrite mirror_key_lookup_camel. unfold attached.
    rewrite !(mirror_key_lookup_ne "triage_result" "triageResult") by done.
    rewrite normalize_key_lookup_snake, normalize_key_lookup_camel by done.
    unfold attached.
    rewrite !normalize_key_lookup_ne by done.
    destruct (updates !! "fix_result"), (updates !! "fixResult"); done.
Qed.

Lemma updated_lookup incident updates t k :
  k ≠ "updated_at" →
  updated incident updates t !! k =
    match mirror (normalize updates) !! k with
    | Some v => Some v
    | None => incident !! k
    end.
Proof.
  intros. unfold updated, Object_assign.
  rewrite lookup_union_r by (by rewrite lookup_singleton_ne).
  rewrite lookup_union.
  destruct (mirror (normalize updates) !! k), (incident !! k); done.
Qed.

Lemma updated_lookup_other incident updates t k :
  k ≠ "triageResult" → k ≠ "triage_result" →
  k ≠ "fixResult" → k ≠ "fix_result" → k ≠ "updated_at" →
  updated incident updates t !! k =
    match updates !! k with Some v => Some v | None => incident !! k end.
Proof.
  intros. rewrite updated_lookup by done.
  by rewrite toAssign_lookup_other by done.
Qed.

(** An update always stamps [updated_at] with the instant it reads. *)
Lemma updated_updated_at incident updates t :
  updated incident updates t !! "updated_at" = Some (VStr (toISOString t)).
Proof.
  unfold updated, Object_assign.
  apply lookup_union_Some_l. apply lookup_singleton_eq.
Qed.

(** ** The store's operations, run *)

Lemma Database_updateIncident_found id updates w incident :
  incidents (db w) !! id = Some incident →
  Database_updateIncident id updates w =
    (Ok (VObj (updated incident updates (clock w (reads w)))),
     with_db {| incidents :=
                  <[id := updated incident updates (clock w (reads w))]>
                    (incidents (db w));
                timeline := timeline (db w);
                relations := relations (db w) |} (tick w)).
Proof.
  intros H. unfold Database_updateIncident. mstep. rewrite H. reflexivity.
Qed.

Lemma Database_updateIncident_missing id updates w :
  incidents (db w) !! id = None →
  Database_updateIncident id updates w = (Ok VNull, w).
Proof.
  intros H. unfold Database_updateIncident. mstep. rewrite H. reflexivity.
Qed.

(* ===================================================================== *)
(** * Properties of the incident lifecycle manager *)
(* ===================================================================== *)

(** ** Creation *)

(** What [createIncident] does for an alert that is an object (or any value
    but [undefined] and [null], for which the first property read throws). *)
Lemma createIncident_run (alert : value) (w : World) :
  alert ≠ VUndef → alert ≠ VNull →
  ∃ (incident : gmap string value) (w' : World),
    IncidentManager_createIncident alert w = (Ok incident, w') ∧
    incidents (db w') =
      <["inc-" +:+ uuids w (drawn w) := incident]> (incidents (db w)) ∧
    timeline (db w') =
      (timeline (db w) ++
       [{| ev_id := length (timeline (db w)) + 1;
           incident_id := "inc-" +:+ uuids w (drawn w);
           event_type := "incident_created";
           event_data := obj [("alert", alert); ("source", VStr "prometheus")];
           ev_created_at := clock w (S (S (reads w))) |}])%list ∧
    relations (db w') =
      (relations (db w) ++
       [{| rel_id := length (relations (db w)) + 1;
           entity_type := VStr "incident";
           entity_id := VStr ("inc-" +:+ uuids w (drawn w));
           related_type := VStr "alert";
           related_id := js_or (get_opt alert "id") (get_opt alert "fingerprint");
           relationship := VStr "triggered_by";
           metadata :=
             obj [("timestamp",
                   VStr (toISOString (clock w (S (S (S (reads w)))))))];
           rel_created_at := clock w (S (S (S (S (reads w))))) |}])%list ∧
    incident !! "id" = Some (VStr ("inc-" +:+ uuids w (drawn w))) ∧
    incident !! "status" = Some (VStr "open") ∧
    incident !! "summary" =
      Some (js_or (js_or (get_opt alert "summary")
                         (get_opt (get_opt alert "labels") "alertname"))
                  (VStr "Unknown Alert")) ∧
    incident !! "severity" =
      Some (js_or (js_or (get_opt alert "severity")
                         (get_opt (get_opt alert "labels") "severity"))
                  (VStr "warning")) ∧
    incident !! "labels" = Some (js_or (get_opt alert "labels") (VObj ∅)) ∧
    incident !! "annotations" =
      Some (js_or (get_opt alert "annotations") (VObj ∅)) ∧
    incident !! "triage_result" = None ∧ incident !! "triageResult" = None ∧
    incident !! "fix_result" = None ∧ incident !! "fixResult" = None.
Proof.
  intros Hu Hn. unfold IncidentManager_createIncident.
  unfold Database_createIncident, Database_addTimelineEvent,
    Database_addMemoryRelation.
  mstep. rewrite !(get_defined alert _ Hu Hn). mstep.
  eexists _, _. split; [reflexivity|].
  cbn [db incidents timeline relations with_db tick draw].
  repeat split; reflexivity.
Qed.

(** On [undefined] or [null], [createIncident] throws after drawing the
    uuid, and stores nothing. *)
Lemma createIncident_nullish (alert : value) (w : World) :
  alert = VUndef ∨ alert = VNull →
  ∃ e, IncidentManager_createIncident alert w = (Throw e, draw w).
Proof. intros [-> | ->]; eexists; reflexivity. Qed.

(** C3 (amended).  For every alert that is not [undefined] or [null],
    [createIncident] (on the in-memory store) returns and stores, under a
    fresh id [inc-<uuid>], an incident whose status is ["open"] (not
    ["new"]); its summary is ["Unknown Alert"] when the alert has neither a
    [summary] nor a [labels.alertname], and its severity is ["warning"] when
    the alert has neither a [severity] nor a [labels.severity]; the operation
    appends exactly one timeline event, of type [incident_created], carrying
    the alert, and exactly one relation, [triggered_by], from the incident to
    the alert ([alert.id || alert.fingerprint]). *)
Theorem createIncident_creates_open_incident (alert : value) (w : World) :
  alert ≠ VUndef → alert ≠ VNull →
  ∃ (incident : gmap string value) (w' : World)
    (e : TimelineEvent) (r : MemoryRelation),
    IncidentManager_createIncident alert w = (Ok incident, w') ∧
    incidents (db w') =
      <["inc-" +:+ uuids w (drawn w) := incident]> (incidents (db w)) ∧
    prop incident "id" = VStr ("inc-" +:+ uuids w (drawn w)) ∧
    prop incident "status" = VStr "open" ∧
    (truthy (get_opt alert "summary") = false →
     truthy (get_opt (get_opt alert "labels") "alertname") = false →
     prop incident "summary" = VStr "Unknown Alert") ∧
    (truthy (get_opt alert "severity") = false →
     truthy (get_opt (get_opt alert "labels") "severity") = false →
     prop incident "severity" = VStr "warning") ∧
    timeline (db w') = (timeline (db w) ++ [e])%list ∧
    incident_id e = "inc-" +:+ uuids w (drawn w) ∧
    event_type e = "incident_created" ∧
    event_data e = obj [("alert", alert); ("source", VStr "prometheus")] ∧
    relations (db w') = (relations (db w) ++ [r])%list ∧
    entity_type r = VStr "incident" ∧
    entity_id r = VStr ("inc-" +:+ uuids w (drawn w)) ∧
    related_type r = VStr "alert" ∧
    related_id r = js_or (get_opt alert "id") (get_opt alert "fingerprint") ∧
    relationship r = VStr "triggered_by".
Proof.
  intros Hu Hn.
  destruct (createIncident_run alert w Hu Hn)
    as (incident & w' & Hrun & Hinc & Htl & Hrel & Hid & Hst & Hsum & Hsev & _).
  eexists incident, w', _, _. split; [exact Hrun|]. split; [exact Hinc|].
  unfold prop. rewrite Hid, Hst, Hsum, Hsev. cbn [default].
  split; [reflexivity|]. split; [reflexivity|].
  split; [intros H1 H2; unfold js_or; by rewrite H1, H2|].
  split; [intros H1 H2; unfold js_or; by rewrite H1, H2|].
  split; [exact Htl|]. do 3 (split; [reflexivity|]).
  split; [exact Hrel|]. repeat split; reflexivity.
Qed.

Lemma createIncident_creates_open_incident_witness :
  bare_alert ≠ VUndef ∧ bare_alert ≠ VNull ∧
  ∃ (incident : gmap string value) (w' : World),
    IncidentManager_createIncident bare_alert fresh_world = (Ok incident, w') ∧
    prop incident "status" = VStr "open" ∧
    prop incident "summary" = VStr "Unknown Alert" ∧
    prop incident "severity" = VStr "warning" ∧
    length (timeline (db w')) = 1 ∧
    length (relations (db w')) = 1.
Proof.
  split; [discriminate|]. split; [discriminate|].
  destruct (createIncident_creates_open_incident bare_alert fresh_world)
    as (incident & w' & e & r & Hrun & _ & _ & Hst & Hsum & Hsev & Htl
        & _ & _ & _ & Hrel & _);
    [discriminate | discriminate |].
  exists incident, w'. split; [exact Hrun|]. split; [exact Hst|].
  split; [apply Hsum; reflexivity|]. split; [apply Hsev; reflexivity|].
  rewrite Htl, Hrel. split; reflexivity.
Defined.

(** C3 as stated fails: the incident made from the scenario's alert does not
    have the status ["new"]. *)
Lemma createIncident_status_is_not_new :
  ¬ (∀ (alert : value) (w : World) (incident : gmap string value) (w' : World),
       IncidentManager_createIncident alert w = (Ok incident, w') →
       prop incident "status" = VStr "new").
Proof.
  intros H.
  destruct (createIncident_run memory_alert fresh_world)
    as (incident & w' & Hrun & _ & _ & _ & _ & Hst & _);
    [discriminate | discriminate |].
  specialize (H memory_alert fresh_world incident w' Hrun).
  unfold prop in H. rewrite Hst in H. discriminate H.
Qed.

(** The repository's test of [createIncident] expects the summary of the
    alert's annotations; the code never reads them and falls back on the
    alert's name. *)
Example createIncident_summary_of_scenario :
  (λ r, match fst r with
        | Ok incident => prop incident "summary"
        | Throw _ => VUndef
        end) (IncidentManager_createIncident memory_alert fresh_world)
  = VStr "HighMemoryUsage".
Proof. vm_compute. reflexivity. Qed.

(** ** Update *)

(** An update of a stored incident returns the updated object, stores it, and
    only appends to the timeline. *)
Lemma updateIncident_found id updates w incident :
  incidents (db w) !! id = Some incident →
  ∃ (w' : World) (events : list TimelineEvent),
    IncidentManager_updateIncident id updates w =
      (Ok (VObj (updated incident updates (clock w (reads w)))), w') ∧
    incidents (db w') =
      <[id := updated incident updates (clock w (reads w))]> (incidents (db w)) ∧
    relations (db w') = relations (db w) ∧
    timeline (db w') = (timeline (db w) ++ events)%list.
Proof.
  intros H. unfold IncidentManager_updateIncident.
  unfold mbind at 1. unfold M_bind at 1.
  rewrite (Database_updateIncident_found _ _ _ _ H).
  destruct (truthy (prop updates "status")) eqn:Es;
  destruct (truthy (prop updates "triageResult")) eqn:Et;
  destruct (truthy (prop updates "fixResult")) eqn:Ef;
  rewrite ?(get_truthy _ _ Et), ?(get_truthy _ _ Ef);
  unfold Database_addTimelineEvent; mstep; unfold get; mstep;
  eexists _, _; (split; [reflexivity|]);
  cbn [db incidents relations timeline with_db tick];
  (split; [reflexivity|]); (split; [reflexivity|]);
  rewrite <- ?app_assoc; first [reflexivity | symmetry; apply app_nil_r].
Qed.

(** C2 (amended).  [updateIncident] has no guard on terminal states: for
    every stored incident, after an update that names a [status] the
    incident's status is the update's, whatever it was before (so a
    [resolved] or [failed] incident can be set back to a non-terminal
    status); an update that names no [status] leaves the status as it was. *)
Theorem updateIncident_overwrites_status
  (id : string) (updates : gmap string value) (w : World)
  (incident : gmap string value) :
  incidents (db w) !! id = Some incident →
  ∃ incident' : gmap string value,
    incidents (db (snd (IncidentManager_updateIncident id updates w))) !! id
      = Some incident' ∧
    (∀ s, updates !! "status" = Some s → prop incident' "status" = s) ∧
    (updates !! "status" = None →
     prop incident' "status" = prop incident "status").
Proof.
  intros H.
  destruct (updateIncident_found id updates w incident H)
    as (w' & events & Hrun & Hinc & _ & _).
  rewrite Hrun. cbn [snd]. rewrite Hinc, lookup_insert_eq.
  eexists. split; [reflexivity|].
  unfold prop. rewrite updated_lookup_other by done.
  split.
  - intros s Hs. by rewrite Hs.
  - intros Hs. by rewrite Hs.
Qed.

Lemma updateIncident_overwrites_status_witness :
  stored_status resolved_world "inc-0000-0" = VStr "resolved" ∧
  stored_status (snd (IncidentManager_updateIncident "inc-0000-0"
                        {["status" := VStr "new"]} resolved_world))
                "inc-0000-0" = VStr "new".
Proof.
  split; [vm_compute; reflexivity|].
  assert (is_Some (incidents (db resolved_world) !! "inc-0000-0"))
    as [incident Hfound]
    by (apply (bool_decide_unpack _); vm_compute; reflexivity).
  destruct (updateIncident_overwrites_status "inc-0000-0"
              {["status" := VStr "new"]} resolved_world incident Hfound)
    as (incident' & Hstored & Hset & _).
  unfold stored_status. rewrite Hstored. apply Hset. apply lookup_singleton_eq.
Defined.

(** C2 as stated fails: the resolved incident of [resolved_world] is set back
    to ["new"] by an update. *)
Lemma terminal_status_regresses :
  ¬ (∀ (id : string) (updates : gmap string value) (w : World)
       (incident : gmap string value),
       incidents (db w) !! id = Some incident →
       prop incident "status" = VStr "resolved"
         ∨ prop incident "status" = VStr "failed" →
       ∃ incident' : gmap string value,
         incidents (db (snd (IncidentManager_updateIncident id updates w))) !! id
           = Some incident' ∧
         (prop incident' "status" = VStr "resolved"
            ∨ prop incident' "status" = VStr "failed")).
Proof.
  intros H.
  assert (Hbefore : stored_status resolved_world "inc-0000-0" = VStr "resolved")
    by (vm_compute; reflexivity).
  assert (Hafter : stored_status
            (snd (IncidentManager_updateIncident "inc-0000-0"
                    {["status" := VStr "new"]} resolved_world))
            "inc-0000-0" = VStr "new")
    by (vm_compute; reflexivity).
  assert (is_Some (incidents (db resolved_world) !! "inc-0000-0"))
    as [incident Hfound]
    by (apply (bool_decide_unpack _); vm_compute; reflexivity).
  unfold stored_status in Hbefore, Hafter. rewrite Hfound in Hbefore.
  destruct (H "inc-0000-0" {["status" := VStr "new"]} resolved_world incident
              Hfound (or_introl Hbefore))
    as (incident' & Hstored & Hterminal).
  rewrite Hstored in Hafter. rewrite Hafter in Hterminal.
  destruct Hterminal; discriminate.
Qed.

(** Every update of a stored incident stamps [updated_at]. *)
Lemma updateIncident_updated_at id updates w incident :
  incidents (db w) !! id = Some incident →
  ∃ incident' : gmap string value,
    incidents (db (snd (IncidentManager_updateIncident id updates w))) !! id
      = Some incident' ∧
    prop incident' "updated_at" = VStr (toISOString (clock w (reads w))).
Proof.
  intros H.
  destruct (updateIncident_found id updates w incident H)
    as (w' & events & Hrun & Hinc & _ & _).
  rewrite Hrun. cbn [snd]. rewrite Hinc, lookup_insert_eq.
  eexists. split; [reflexivity|].
  unfold prop. by rewrite updated_updated_at.
Qed.

(** The event of a status change: exactly one [status_changed_to_<status>]
    event is appended, before any [triaged] or [fix_applied] event of the same
    update; its [previousStatus] is read from the incident after the update
    was applied, so it always equals [newStatus]. *)
Lemma updateIncident_status_event id updates w incident :
  incidents (db w) !! id = Some incident →
  truthy (prop updates "status") = true →
  ∃ rest : list TimelineEvent,
    timeline (db (snd (IncidentManager_updateIncident id updates w))) =
      (timeline (db w) ++
       {| ev_id := length (timeline (db w)) + 1;
          incident_id := id;
          event_type := "status_changed_to_" +:+ ToString (prop updates "status");
          event_data :=
            obj [ ("previousStatus", prop updates "status");
                  ("newStatus", prop updates "status");
                  ("timestamp", VStr (toISOString (clock w (S (reads w))))) ];
          ev_created_at := clock w (S (S (reads w))) |} :: rest)%list ∧
    Forall (λ e, event_type e = "triaged" ∨ event_type e = "fix_applied") rest.
Proof.
  intros H Es. unfold IncidentManager_updateIncident.
  unfold mbind at 1. unfold M_bind at 1.
  rewrite (Database_updateIncident_found _ _ _ _ H). rewrite Es.
  assert (Hprev : prop (updated incident updates (clock w (reads w))) "status"
                  = prop updates "status").
  { unfold prop at 1. rewrite updated_lookup_other by done.
    by rewrite (truthy_prop_Some _ _ Es). }
  destruct (truthy (prop updates "triageResult")) eqn:Et;
  destruct (truthy (prop updates "fixResult")) eqn:Ef;
  rewrite ?(get_truthy _ _ Et), ?(get_truthy _ _ Ef);
  unfold Database_addTimelineEvent; mstep; unfold get; mstep;
  rewrite Hprev; rewrite <- ?app_assoc; cbn [app];
  eexists; (split; [reflexivity|]);
  repeat first [apply List.Forall_nil
               | apply List.Forall_cons; [first [by left | by right]|]].
Qed.

(** C5 (the code departs from it).  The incident made from the scenario's
    alert has the status ["open"]; [updateIncident(id, {status: 'triaged'})]
    appends one event, [status_changed_to_triaged], whose [newStatus] is
    ["triaged"] and whose [previousStatus] is ["triaged"] too, not the
    ["open"] the incident held before the update. *)
Theorem updateIncident_previousStatus_is_the_new_status :
  let w1 := snd (IncidentManager_createIncident memory_alert fresh_world) in
  let w2 := snd (IncidentManager_updateIncident "inc-0000-0"
                   {["status" := VStr "triaged"]} w1) in
  stored_status w1 "inc-0000-0" = VStr "open" ∧
  length (timeline (db w2)) = S (length (timeline (db w1))) ∧
  (event_type <$> last (timeline (db w2))) = Some "status_changed_to_triaged" ∧
  ((λ e, get_opt (event_data e) "newStatus") <$> last (timeline (db w2)))
    = Some (VStr "triaged") ∧
  ((λ e, get_opt (event_data e) "previousStatus") <$> last (timeline (db w2)))
    = Some (VStr "triaged").
Proof. cbv zeta. repeat split; vm_compute; reflexivity. Qed.

(** ** Update of an unknown incident *)

Lemma updateIncident_missing_status_throws id updates w :
  incidents (db w) !! id = None →
  truthy (prop updates "status") = true →
  IncidentManager_updateIncident id updates w =
    (Throw (TypeError "Cannot read properties of undefined or null: status"), w).
Proof.
  intros H Es. unfold IncidentManager_updateIncident.
  unfold mbind at 1. unfold M_bind at 1.
  rewrite (Database_updateIncident_missing _ _ _ H). rewrite Es.
  reflexivity.
Qed.

Lemma updateIncident_missing_triage_appends id updates w :
  incidents (db w) !! id = None →
  truthy (prop updates "status") = false →
  truthy (prop updates "triageResult") = true →
  ∃ (w' : World) (e : TimelineEvent) (rest : list TimelineEvent),
    IncidentManager_updateIncident id updates w = (Ok VNull, w') ∧
    timeline (db w') = (timeline (db w) ++ e :: rest)%list ∧
    incident_id e = id ∧ event_type e = "triaged".
Proof.
  intros H Es Et. unfold IncidentManager_updateIncident.
  unfold mbind at 1. unfold M_bind at 1.
  rewrite (Database_updateIncident_missing _ _ _ H). rewrite Es, Et.
  destruct (truthy (prop updates "fixResult")) eqn:Ef;
  rewrite ?(get_truthy _ _ Et), ?(get_truthy _ _ Ef);
  unfold Database_addTimelineEvent; mstep;
  eexists _, _, _; (split; [reflexivity|]);
  cbn [db timeline with_db tick]; rewrite <- ?app_assoc; cbn [app];
  (split; [reflexivity|]); done.
Qed.

(** An update of an unknown incident that names neither a status nor an
    attachment does return [null] and leaves the state as it was. *)
Lemma updateIncident_missing_plain id updates w :
  incidents (db w) !! id = None →
  truthy (prop updates "status") = false →
  truthy (prop updates "triageResult") = false →
  truthy (prop updates "fixResult") = false →
  IncidentManager_updateIncident id updates w = (Ok VNull, w).
Proof.
  intros H Es Et Ef. unfold IncidentManager_updateIncident.
  unfold mbind at 1. unfold M_bind at 1.
  rewrite (Database_updateIncident_missing _ _ _ H). rewrite Es, Et, Ef.
  reflexivity.
Qed.

(** C8 (the code departs from it).  On a store with no incident,
    [updateIncident('non-existent', {status: 'resolved'})] (the call of the
    repository's own test, which expects [null]) raises a TypeError; and an
    update of the unknown id that attaches a triage result returns [null] but
    appends a [triaged] event for the missing incident. *)
Theorem updateIncident_unknown_id_throws_or_appends :
  IncidentManager_updateIncident "non-existent" {["status" := VStr "resolved"]}
      fresh_world
    = (Throw (TypeError "Cannot read properties of undefined or null: status"),
       fresh_world) ∧
  (let r := IncidentManager_updateIncident "non-existent"
              {["triageResult" := triage_attachment]} fresh_world in
   fst r = Ok VNull ∧
   map (λ e, (incident_id e, event_type e)) (timeline (db (snd r)))
     = [("non-existent", "triaged")]).
Proof.
  split.
  - apply updateIncident_missing_status_throws; reflexivity.
  - cbv zeta. split; vm_compute; reflexivity.
Qed.

(** ** Read *)

Lemma parse_if_string_other JSON_parse v :
  typeof_string v = false → parse_if_string JSON_parse v = Ok v.
Proof. by destruct v. Qed.

(** [getIncident] of an unknown id is [undefined], whatever [JSON.parse] does. *)
Lemma getIncident_missing JSON_parse id w :
  incidents (db w) !! id = None →
  IncidentManager_getIncident JSON_parse id w = (Ok VUndef, w).
Proof.
  intros H. unfold IncidentManager_getIncident, Database_getIncident.
  mstep. rewrite H. reflexivity.
Qed.

(** [getIncident] of a stored incident whose JSON-typed fields hold no
    string: [JSON.parse] is not called, [labels] and [annotations] are
    returned as stored, and each attachment is read through both spellings. *)
Lemma getIncident_found JSON_parse id w incident :
  incidents (db w) !! id = Some incident →
  typeof_string (prop incident "labels") = false →
  typeof_string (prop incident "annotations") = false →
  typeof_string (prop incident "triage_result") = false →
  typeof_string (prop incident "fix_result") = false →
  ∃ (incident' : gmap string value) (w' : World),
    IncidentManager_getIncident JSON_parse id w = (Ok (VObj incident'), w') ∧
    prop incident' "labels" = prop incident "labels" ∧
    prop incident' "annotations" = prop incident "annotations" ∧
    prop incident' "triage_result" =
      snake_read (prop incident "triage_result") (prop incident "triageResult") ∧
    prop incident' "triageResult" =
      camel_read (prop incident "triage_result") (prop incident "triageResult") ∧
    prop incident' "fix_result" =
      snake_read (prop incident "fix_result") (prop incident "fixResult") ∧
    prop incident' "fixResult" =
      camel_read (prop incident "fix_result") (prop incident "fixResult").
Proof.
  intros H Hl Ha Ht Hf.
  unfold IncidentManager_getIncident, Database_getIncident.
  mstep. rewrite H. unfold assign. mstep.
  rewrite (parse_if_string_other _ _ Hl). mstep.
  rewrite prop_insert_ne by done. rewrite (parse_if_string_other _ _ Ha). mstep.
  rewrite !prop_insert_ne by done. rewrite (parse_if_string_other _ _ Ht). mstep.
  rewrite !prop_insert_ne by done. rewrite (parse_if_string_other _ _ Hf). mstep.
  unfold camel_read; unfold snake_read.
  repeat first [rewrite prop_insert_eq | rewrite prop_insert_ne by done].
  destruct (is_undefined (prop incident "triage_result")
            && negb (is_undefined (prop incident "triageResult"))) eqn:E1; mstep;
  repeat first [rewrite prop_insert_eq | rewrite prop_insert_ne by done];
  destruct (is_undefined (prop incident "fix_result")
            && negb (is_undefined (prop incident "fixResult"))) eqn:E2; mstep;
  repeat first [rewrite prop_insert_eq | rewrite prop_insert_ne by done];
  eexists _, _; (split; [reflexivity|]);
  repeat first [rewrite prop_insert_eq | rewrite prop_insert_ne by done];
  done.
Qed.

(** A string in a JSON-typed field does not come back as stored: it is given
    to [JSON.parse]. *)
Lemma getIncident_parses_string_labels JSON_parse id w incident text e :
  incidents (db w) !! id = Some incident →
  prop incident "labels" = VStr text →
  JSON_parse text = Throw e →
  fst (IncidentManager_getIncident JSON_parse id w) = Throw e.
Proof.
  intros H Hl Hp.
  unfold IncidentManager_getIncident, Database_getIncident.
  mstep. rewrite H, Hl. cbn [parse_if_string]. rewrite Hp. reflexivity.
Qed.

Lemma snake_read_same v : snake_read v v = v.
Proof. by destruct v. Qed.

Lemma camel_read_same v : camel_read v v = v.
Proof. by destruct v. Qed.

(** C9.  Round trip with dual naming (in-memory store).  Take an alert whose
    [labels] and [annotations] are not strings, make it an incident, apply an
    update that touches neither [labels] nor [annotations], attaches no
    string and has no own property named [__proto__] (which [Object.assign]
    would make the prototype of the stored object), and read the incident
    back.  The read returns an object whose
    [labels] and [annotations] are the stored ones (the alert's, or [{}]),
    and whose [triage_result] and [triageResult] both hold what the update
    attached as triage result, under whichever spelling (the snake_case one
    if it used both), and likewise [fix_result] and [fixResult]; without an
    attachment both spellings read [undefined].  Read back right after its
    creation, the incident has the stored [labels] and [annotations] and
    [undefined] under the four attachment names. *)
Theorem getIncident_round_trip
  (JSON_parse : string → result value) (alert : value)
  (updates : gmap string value) (w : World) :
  alert ≠ VUndef → alert ≠ VNull →
  typeof_string (js_or (get_opt alert "labels") (VObj ∅)) = false →
  typeof_string (js_or (get_opt alert "annotations") (VObj ∅)) = false →
  updates !! "labels" = None → updates !! "annotations" = None →
  updates !! "__proto__" = None →
  (∀ k v, k ∈ ["triage_result"; "triageResult"; "fix_result"; "fixResult"] →
          updates !! k = Some v → typeof_string v = false) →
  let id := "inc-" +:+ uuids w (drawn w) in
  let w1 := snd (IncidentManager_createIncident alert w) in
  let w2 := snd (IncidentManager_updateIncident id updates w1) in
  (∃ incident : gmap string value,
     fst (IncidentManager_getIncident JSON_parse id w1) = Ok (VObj incident) ∧
     prop incident "labels" = js_or (get_opt alert "labels") (VObj ∅) ∧
     prop incident "annotations"
       = js_or (get_opt alert "annotations") (VObj ∅) ∧
     prop incident "triage_result" = VUndef ∧
     prop incident "triageResult" = VUndef ∧
     prop incident "fix_result" = VUndef ∧
     prop incident "fixResult" = VUndef) ∧
  (∃ incident : gmap string value,
     fst (IncidentManager_getIncident JSON_parse id w2) = Ok (VObj incident) ∧
     prop incident "labels" = js_or (get_opt alert "labels") (VObj ∅) ∧
     prop incident "annotations"
       = js_or (get_opt alert "annotations") (VObj ∅) ∧
     prop incident "triage_result"
       = default VUndef (attached "triage_result" "triageResult" updates) ∧
     prop incident "triageResult"
       = default VUndef (attached "triage_result" "triageResult" updates) ∧
     prop incident "fix_result"
       = default VUndef (attached "fix_result" "fixResult" updates) ∧
     prop incident "fixResult"
       = default VUndef (attached "fix_result" "fixResult" updates)).
Proof.
  intros Hu Hn Hl Ha Hul Hua _ Hstr. cbv zeta.
  destruct (createIncident_run alert w Hu Hn)
    as (inc0 & w1 & Hrun & Hinc & _ & _ & _ & _ & _ & _
        & Hlab & Hann & Ht1 & Ht2 & Hf1 & Hf2).
  rewrite Hrun. cbn [snd]. set (id := "inc-" +:+ uuids w (drawn w)) in *.
  assert (Hfound : incidents (db w1) !! id = Some inc0)
    by (rewrite Hinc; apply lookup_insert_eq).
  split.
  { destruct (getIncident_found JSON_parse id w1 inc0 Hfound)
      as (incident & w3 & Hrun3 & Gl & Ga & Gts & Gtc & Gfs & Gfc).
    - unfold prop. by rewrite Hlab.
    - unfold prop. by rewrite Hann.
    - unfold prop. by rewrite Ht1.
    - unfold prop. by rewrite Hf1.
    - exists incident. rewrite Hrun3. split; [reflexivity|].
      rewrite Gl, Ga, Gts, Gtc, Gfs, Gfc. unfold prop.
      rewrite Hlab, Hann, Ht1, Ht2, Hf1, Hf2. repeat split; reflexivity. }
  destruct (updateIncident_found id updates w1 inc0 Hfound)
    as (w2 & events & Hrun2 & Hinc2 & _ & _).
  rewrite Hrun2. cbn [snd].
  set (stored := updated inc0 updates (clock w1 (reads w1))) in *.
  assert (Hfound2 : incidents (db w2) !! id = Some stored)
    by (rewrite Hinc2; apply lookup_insert_eq).
  destruct (toAssign_triage updates) as [Hts Htc].
  destruct (toAssign_fix updates) as [Hfs Hfc].
  assert (Pl : prop stored "labels" = js_or (get_opt alert "labels") (VObj ∅)).
  { unfold prop, stored. rewrite updated_lookup_other by done.
    by rewrite Hul, Hlab. }
  assert (Pa : prop stored "annotations"
               = js_or (get_opt alert "annotations") (VObj ∅)).
  { unfold prop, stored. rewrite updated_lookup_other by done.
    by rewrite Hua, Hann. }
  assert (Pts : prop stored "triage_result"
                = default VUndef (attached "triage_result" "triageResult" updates)).
  { unfold prop, stored. rewrite updated_lookup by done. rewrite Hts, Ht1.
    by destruct (attached "triage_result" "triageResult" updates). }
  assert (Ptc : prop stored "triageResult"
                = default VUndef (attached "triage_result" "triageResult" updates)).
  { unfold prop, stored. rewrite updated_lookup by done. rewrite Htc, Ht2.
    by destruct (attached "triage_result" "triageResult" updates). }
  assert (Pfs : prop stored "fix_result"
                = default VUndef (attached "fix_result" "fixResult" updates)).
  { unfold prop, stored. rewrite updated_lookup by done. rewrite Hfs, Hf1.
    by destruct (attached "fix_result" "fixResult" updates). }
  assert (Pfc : prop stored "fixResult"
                = default VUndef (attached "fix_result" "fixResult" updates)).
  { unfold prop, stored. rewrite updated_lookup by done. rewrite Hfc, Hf2.
    by destruct (attached "fix_result" "fixResult" updates). }
  assert (Htriage : typeof_string
            (default VUndef (attached "triage_result" "triageResult" updates))
            = false).
  { unfold attached.
    destruct (updates !! "triage_result") as [v|] eqn:Es.
    - apply (Hstr "triage_result" v); [by repeat constructor | done].
    - destruct (updates !! "triageResult") as [v|] eqn:Ec; [|done].
      apply (Hstr "triageResult" v); [by repeat constructor | done]. }
  assert (Hfix : typeof_string
            (default VUndef (attached "fix_result" "fixResult" updates))
            = false).
  { unfold attached.
    destruct (updates !! "fix_result") as [v|] eqn:Es.
    - apply (Hstr "fix_result" v); [by repeat constructor | done].
    - destruct (updates !! "fixResult") as [v|] eqn:Ec; [|done].
      apply (Hstr "fixResult" v); [by repeat constructor | done]. }
  destruct (getIncident_found JSON_parse id w2 stored Hfound2)
    as (incident & w3 & Hrun3 & Gl & Ga & Gts & Gtc & Gfs & Gfc).
  - by rewrite Pl.
  - by rewrite Pa.
  - by rewrite Pts.
  - by rewrite Pfs.
  - exists incident. rewrite Hrun3. split; [reflexivity|].
    rewrite Gl, Ga, Gts, Gtc, Gfs, Gfc, Pl, Pa, Pts, Ptc, Pfs, Pfc.
    rewrite !snake_read_same, !camel_read_same. repeat split; reflexivity.
Qed.

Lemma getIncident_round_trip_witness :
  ∃ incident : gmap string value,
    fst (IncidentManager_getIncident no_JSON "inc-0000-0"
           (snd (IncidentManager_updateIncident "inc-0000-0" triaged_update
                   (snd (IncidentManager_createIncident memory_alert
                           fresh_world)))))
      = Ok (VObj incident) ∧
    prop incident "labels"
      = obj [ ("alertname", VStr "HighMemoryUsage");
              ("severity", VStr "critical") ] ∧
    prop incident "annotations"
      = obj [("summary", VStr "Memory usage at 95%")] ∧
    prop incident "triage_result" = triage_attachment ∧
    prop incident "triageResult" = triage_attachment ∧
    prop incident "fix_result" = VUndef ∧
    prop incident "fixResult" = VUndef.
Proof.
  destruct (getIncident_round_trip no_JSON memory_alert triaged_update
              fresh_world)
    as [_ (incident & Hrun & Hl & Ha & Hts & Htc & Hfs & Hfc)].
  - discriminate.
  - discriminate.
  - reflexivity.
  - reflexivity.
  - reflexivity.
  - reflexivity.
  - reflexivity.
  - intros k v Hk Hv. unfold triaged_update in Hv.
    elem_cases; simplify_map_eq; reflexivity.
  - exists incident. split; [exact Hrun|].
    rewrite Hl, Ha, Hts, Htc, Hfs, Hfc. repeat split; reflexivity.
Defined.

(* ===================================================================== *)
(** * Properties of the alert watcher and of the two ingestion paths *)
(* ===================================================================== *)

Example Alert_value_of_typed_memory_alert :
  Alert_value typed_memory_alert = memory_alert.
Proof. vm_compute. reflexivity. Qed.

Lemma injectAlert_duplicate alert processed :
  fingerprint alert ∈ processed →
  injectAlert alert processed = (processed, []).
Proof. intros H. unfold injectAlert. by rewrite decide_True. Qed.

Lemma injectAlert_records alert processed :
  fingerprint alert ∈ fst (injectAlert alert processed).
Proof. unfold injectAlert. case_decide; cbn; set_solver. Qed.

(** Through [injectAlert], a second alert with the fingerprint of one already
    injected changes nothing: no event is emitted, no incident is created. *)
Lemma inject_duplicate first second o :
  fingerprint second = fingerprint first →
  inject second (inject first o) = inject first o.
Proof.
  intros Heq. unfold inject at 1. unfold deliver.
  rewrite injectAlert_duplicate.
  - by destruct (inject first o).
  - rewrite Heq. unfold inject, deliver. cbn [processedAlerts].
    apply injectAlert_records.
Qed.

(** What the loop body does with an alert depends on the set only through
    the membership of the alert's fingerprint. *)
Lemma poll_alert_cases alert :
  (∃ e, ∀ Q, poll_alert alert Q = Throw e) ∨
  (∀ Q, poll_alert alert Q = Ok (Q, [])) ∨
  (∃ fp emitted, ∀ Q,
     poll_alert alert Q =
       if decide (fp ∈ Q) then Ok (Q, []) else Ok ({[fp]} ∪ Q, [emitted])).
Proof.
  unfold poll_alert.
  destruct alert as [| | | | | |o];
    try (left; eexists; intros Q; reflexivity);
    try (right; left; intros Q; reflexivity).
  cbn [get mbind result_bind mret result_ret].
  destruct (eq_str (prop o "state") "firing"); [|right; left; done].
  unfold generateFingerprint. cbn [get mbind result_bind mret result_ret].
  destruct (prop o "labels") as [| | | | | |a_labels] eqn:El;
    try (left; eexists; intros Q; reflexivity);
    cbn [get mbind result_bind mret result_ret];
    right; right; eexists _, _; intros Q; reflexivity.
Qed.

Lemma poll_alerts_subset alerts : ∀ P,
  P ⊆ fst (poll_alerts alerts P).
Proof.
  induction alerts as [|alert rest IH]; intros P; cbn [poll_alerts]; [done|].
  destruct (poll_alert_cases alert) as [[e H]|[H|(fp & em & H)]]; rewrite H.
  - done.
  - specialize (IH P). by destruct (poll_alerts rest P).
  - case_decide.
    + specialize (IH P). by destruct (poll_alerts rest P).
    + specialize (IH ({[fp]} ∪ P)). destruct (poll_alerts rest _).
      cbn in *. set_solver.
Qed.

(** Once a list of fetched alerts has been processed, processing it again
    (with the resulting set or a larger one) emits nothing and adds nothing. *)
Lemma poll_alerts_again alerts : ∀ P Q,
  fst (poll_alerts alerts P) ⊆ Q →
  poll_alerts alerts Q = (Q, []).
Proof.
  induction alerts as [|alert rest IH]; intros P Q Hsub;
    cbn [poll_alerts] in *; [done|].
  destruct (poll_alert_cases alert) as [[e H]|[H|(fp & em & H)]];
    rewrite H in Hsub; rewrite H.
  - done.
  - destruct (poll_alerts rest P) as [P' E] eqn:Er. cbn [fst] in Hsub.
    rewrite (IH P Q); [done|]. by rewrite Er.
  - destruct (decide (fp ∈ P)) as [Hin|Hnin].
    + destruct (poll_alerts rest P) as [P' E] eqn:Er. cbn [fst] in Hsub.
      pose proof (poll_alerts_subset rest P) as Hmono. rewrite Er in Hmono.
      rewrite decide_True by set_solver.
      rewrite (IH P Q); [done|]. by rewrite Er.
    + destruct (poll_alerts rest ({[fp]} ∪ P)) as [P' E] eqn:Er.
      cbn [fst] in Hsub.
      pose proof (poll_alerts_subset rest ({[fp]} ∪ P)) as Hmono.
      rewrite Er in Hmono.
      rewrite decide_True by set_solver.
      rewrite (IH ({[fp]} ∪ P) Q); [done|]. by rewrite Er.
Qed.

(** On the pull path, a polling cycle that fetches what the previous cycle
    fetched emits no alert. *)
Lemma pollCycle_again response_data processed :
  pollCycle response_data (fst (pollCycle response_data processed))
    = (fst (pollCycle response_data processed), []).
Proof.
  unfold pollCycle. destruct response_data as [data|e]; [|done].
  destruct (iterate _) as [alerts|e]; [|done].
  by apply (poll_alerts_again alerts processed).
Qed.

(** The webhook handler emits every alert of an array payload: as many
    events as the payload has alerts. *)
Lemma webhook_alerts_of_array (alerts : list value) (rest : gmap string value) :
  webhook_alerts (Ok (VObj (<["alerts" := VArr alerts]> rest))) = Ok alerts.
Proof.
  unfold webhook_alerts. cbn [mbind result_bind get].
  by rewrite prop_insert_eq.
Qed.

(** C1 (the code departs from it).  The webhook handler gives every alert of
    a payload to the alert listener without consulting the watcher's set of
    processed fingerprints: the same firing alert sent twice, in one payload
    or in two requests, becomes two incidents.  The watcher's own paths
    ([injectAlert], which the source marks as the entry for webhooks, and the
    polling cycle) create one. *)
Theorem webhook_path_skips_deduplication :
  incident_count
    (webhook (Ok (obj [("alerts", VArr [memory_alert; memory_alert])]))
       fresh_orchestrator) = 2 ∧
  incident_count
    (webhook (Ok (obj [("alerts", VArr [memory_alert])]))
       (webhook (Ok (obj [("alerts", VArr [memory_alert])]))
          fresh_orchestrator)) = 2 ∧
  incident_count
    (inject typed_memory_alert
       (inject typed_memory_alert fresh_orchestrator)) = 1 ∧
  incident_count
    (poll (Ok polled_memory_alerts)
       (poll (Ok polled_memory_alerts) fresh_orchestrator)) = 1.
Proof. repeat split; vm_compute; reflexivity. Qed.

(* ===================================================================== *)
(** * Properties of the triage pipeline *)
(* ===================================================================== *)

Lemma refine_primaryCause rs cs h :
  primaryCause (apply_runbooks rs (correlate_changes cs h)) = primaryCause h.
Proof. by destruct rs as [[|? ?]|], cs as [[|? ?]|]. Qed.

Lemma refine_confidence rs cs h :
  confidence (apply_runbooks rs (correlate_changes cs h)) =
    bump (nonempty rs) (bump (nonempty cs) (confidence h)).
Proof. by destruct rs as [[|? ?]|], cs as [[|? ?]|]. Qed.

Lemma refine_evidence_change rs recentChange others h :
  ("Recent commit: " +:+ dq +:+ message recentChange +:+ dq +:+ " by "
     +:+ author recentChange)
  ∈ evidence (apply_runbooks rs
                (correlate_changes (Some (recentChange :: others)) h)).
Proof.
  destruct rs as [[|? ?]|]; cbn [apply_runbooks correlate_changes evidence];
    rewrite ?elem_of_app, !list_elem_of_singleton; tauto.
Qed.

Lemma refine_runbook first others cs h :
  let line :=
    "Found " +:+ pretty (S (length others)) +:+ " relevant runbook(s)" in
  line ∈ evidence (apply_runbooks (Some (first :: others))
                     (correlate_changes cs h)) ∧
  last (evidence (apply_runbooks (Some (first :: others))
                    (correlate_changes cs h))) = Some line ∧
  suggestedFix (apply_runbooks (Some (first :: others))
                  (correlate_changes cs h)) = head (steps first).
Proof.
  cbn [apply_runbooks evidence suggestedFix length]. split; [|split].
  - rewrite elem_of_app, list_elem_of_singleton. by right.
  - apply last_snoc.
  - reflexivity.
Qed.

(** The rule set of [generateHypothesis] as the code has it.  For an alert
    (not [undefined] or [null]) with the name [name], it returns a
    hypothesis [h] whose confidence is a base value, plus 0.1 capped at 1.0
    if a recent change was found, plus 0.1 capped at 1.0 if a runbook
    matched, where: a name containing ["Memory"] gives the cause
    ["Memory exhaustion or leak"] and the base 0.8; otherwise a name
    containing ["CPU"] gives ["High CPU utilization"] and 0.75; otherwise the
    severity ["critical"] (the alert's [severity] property) gives
    ["Service outage or critical failure"] and 0.7; otherwise the cause is
    ["Unknown"] and the base 0.  A found change adds its commit line to the
    evidence; a matched runbook adds the count line last and makes the first
    step of the first runbook the suggested fix. *)
Lemma generateHypothesis_rules
  (alert : value) (name : string) (context : TriageContext) :
  alert ≠ VUndef → alert ≠ VNull →
  get_opt (get_opt alert "labels") "alertname" = VStr name →
  ∃ (h : TriageHypothesis) (base : float),
    generateHypothesis alert context = Ok h ∧
    confidence h =
      bump (nonempty (runbooks context))
           (bump (nonempty (changes context)) base) ∧
    (String_includes name "Memory" = true →
       primaryCause h = "Memory exhaustion or leak" ∧ base = 0.8%float) ∧
    (String_includes name "Memory" = false →
     String_includes name "CPU" = true →
       primaryCause h = "High CPU utilization" ∧ base = 0.75%float) ∧
    (String_includes name "Memory" = false →
     String_includes name "CPU" = false →
     get_opt alert "severity" = VStr "critical" →
       primaryCause h = "Service outage or critical failure"
       ∧ base = 0.7%float) ∧
    (String_includes name "Memory" = false →
     String_includes name "CPU" = false →
     get_opt alert "severity" ≠ VStr "critical" →
       primaryCause h = "Unknown" ∧ base = 0%float) ∧
    (∀ recentChange others,
       changes context = Some (recentChange :: others) →
       ("Recent commit: " +:+ dq +:+ message recentChange +:+ dq +:+ " by "
          +:+ author recentChange) ∈ evidence h) ∧
    (∀ first others, runbooks context = Some (first :: others) →
       ("Found " +:+ pretty (S (length others)) +:+ " relevant runbook(s)")
         ∈ evidence h ∧
       last (evidence h) =
         Some ("Found " +:+ pretty (S (length others))
               +:+ " relevant runbook(s)") ∧
       suggestedFix h = head (steps first)).
Proof.
  intros Hu Hn Hname. unfold generateHypothesis, analyze_alert_type.
  rewrite !(get_defined alert _ Hu Hn). cbn [mbind result_bind mret result_ret].
  rewrite Hname. cbn [includes_method].
  destruct (String_includes name "Memory") eqn:Em;
    [|destruct (String_includes name "CPU") eqn:Ec;
      [|destruct (eq_str (get_opt alert "severity") "critical") eqn:Es]];
  cbn [mbind result_bind mret result_ret];
  (eexists _, _; split; [reflexivity|]);
  rewrite refine_primaryCause, refine_confidence; cbn [primaryCause confidence];
  (split; [reflexivity|]);
  repeat match goal with |- _ ∧ _ => split end;
  try (intros; first [discriminate | congruence | done]).
  all: try (intros first others Hr; rewrite Hr; apply refine_runbook).
  all: try (intros recentChange others Hc; rewrite Hc;
            apply refine_evidence_change).
  all: try (intros ? ? Hs; apply eq_str_spec in Hs; congruence).
  all: try (intros ? ? Hs; exfalso; apply Hs; by apply eq_str_spec).
Qed.

Example generateHypothesis_HighMemoryUsage :
  ∃ h : TriageHypothesis,
    generateHypothesis high_memory_alert
      {| changes := Some []; runbooks := Some [] |} = Ok h ∧
    primaryCause h = "Memory exhaustion or leak" ∧
    confidence h = 0.8%float.
Proof.
  destruct (generateHypothesis_rules high_memory_alert "HighMemoryUsage"
              {| changes := Some []; runbooks := Some [] |})
    as (h & base & Hrun & Hconf & Hmem & _);
    [discriminate | discriminate | reflexivity |].
  exists h. split; [exact Hrun|].
  destruct Hmem as [Hcause Hbase]; [reflexivity|].
  split; [exact Hcause|]. rewrite Hconf, Hbase. reflexivity.
Qed.

(** C4 (the code departs from it).  The third rule of [generateHypothesis]
    tests the alert's own [severity] property, which an alert of the data
    model does not have, and never the severity label.  Take an alert (not
    [undefined] or [null]) whose name gives neither the memory nor the CPU
    rule, whose [labels.severity] is ["critical"] and whose own [severity] is
    not.  [generateHypothesis] returns the cause ["Unknown"] on the base
    confidence 0, not the service-outage cause on the base 0.7: with no
    recent change and no runbook the confidence is 0 and the evidence is
    empty. *)
Theorem generateHypothesis_ignores_severity_label
  (alert : value) (context : TriageContext) :
  alert ≠ VUndef → alert ≠ VNull →
  includes_method (get_opt (get_opt alert "labels") "alertname") "Memory"
    = Ok false →
  includes_method (get_opt (get_opt alert "labels") "alertname") "CPU"
    = Ok false →
  get_opt (get_opt alert "labels") "severity" = VStr "critical" →
  get_opt alert "severity" ≠ VStr "critical" →
  ∃ h : TriageHypothesis,
    generateHypothesis alert context = Ok h ∧
    primaryCause h = "Unknown" ∧
    primaryCause h ≠ "Service outage or critical failure" ∧
    confidence h =
      bump (nonempty (runbooks context))
           (bump (nonempty (changes context)) 0%float) ∧
    (nonempty (changes context) = false →
     nonempty (runbooks context) = false →
       confidence h = 0%float ∧ evidence h = []).
Proof.
  intros Hu Hn Hmem Hcpu _ Hsev.
  unfold generateHypothesis, analyze_alert_type.
  rewrite !(get_defined alert _ Hu Hn). cbn [mbind result_bind].
  rewrite Hmem. cbn [mbind result_bind]. rewrite Hcpu. cbn [mbind result_bind].
  destruct (eq_str (get_opt alert "severity") "critical") eqn:Es;
    [by apply eq_str_spec in Es|].
  cbn [mbind result_bind mret result_ret].
  eexists. split; [reflexivity|].
  rewrite refine_primaryCause, refine_confidence.
  cbn [primaryCause confidence initial_hypothesis].
  split; [reflexivity|]. split; [discriminate|]. split; [reflexivity|].
  intros Hc Hr. rewrite Hc, Hr. split; [reflexivity|].
  destruct (runbooks context) as [[|? ?]|], (changes context) as [[|? ?]|];
    done.
Qed.

Lemma generateHypothesis_ignores_severity_label_witness :
  ∃ h : TriageHypothesis,
    generateHypothesis service_down_alert
      {| changes := Some []; runbooks := Some [] |} = Ok h ∧
    primaryCause h = "Unknown" ∧
    confidence h = 0%float ∧
    evidence h = [].
Proof.
  destruct (generateHypothesis_ignores_severity_label service_down_alert
              {| changes := Some []; runbooks := Some [] |})
    as (h & Hrun & Hcause & _ & _ & Hplain);
    [discriminate | discriminate | reflexivity | reflexivity | reflexivity
    | discriminate |].
  destruct Hplain as [Hconf Hev]; [reflexivity | reflexivity |].
  exists h. split; [exact Hrun|]. split; [exact Hcause|].
  split; [exact Hconf | exact Hev].
Defined.

(** The same alert with the severity as a property of its own does get the
    service-outage cause on the base 0.7. *)
Example generateHypothesis_own_severity :
  (λ h, (primaryCause h, confidence h)) <$>
    match generateHypothesis
            (obj [ ("severity", VStr "critical");
                   ("labels", obj [("alertname", VStr "ServiceDown")]) ])
            {| changes := Some []; runbooks := Some [] |}
    with Ok h => Some h | Throw _ => None end
  = Some ("Service outage or critical failure", 0.7%float).
Proof. vm_compute. reflexivity. Qed.

(** The runbook search of the source does match the scenario's alert name:
    inside [triageAlert] the memory runbook is found, and the confidence of
    the scenario's hypothesis is the float [0.8 + 0.1]. *)
Example searchRunbooks_HighMemoryUsage :
  map rb_id (searchRunbooks ["HighMemoryUsage"]) = ["rb-001"] ∧
  (confidence <$> match generateHypothesis high_memory_alert
                          {| changes := Some [];
                             runbooks := Some (searchRunbooks ["HighMemoryUsage"]) |}
                  with Ok h => Some h | Throw _ => None end)
  = Some (0.8 + 0.1)%float.
Proof. split; vm_compute; reflexivity. Qed.

(** C7 (amended).  The suggested actions always contain a [create_ticket]
    action, automated; they contain a [follow_runbook] action iff a runbook
    matched, and it is manual; they contain an [apply_fix] action iff the
    confidence is above 0.7 (not always), and it is automated iff the
    confidence is above 0.8; they contain an [escalate] action iff the
    confidence is below 0.5, and it is automated. *)
Theorem generateSuggestedActions_rules
  (h : TriageHypothesis) (matched : list Runbook) :
  (∃ a, a ∈ generateSuggestedActions h matched ∧
        action_type a = "create_ticket" ∧ automated a = true) ∧
  ((∃ a, a ∈ generateSuggestedActions h matched ∧
         action_type a = "follow_runbook") ↔ matched ≠ []) ∧
  (∀ a, a ∈ generateSuggestedActions h matched →
        action_type a = "follow_runbook" → automated a = false) ∧
  ((∃ a, a ∈ generateSuggestedActions h matched ∧ action_type a = "apply_fix")
     ↔ PrimFloat.ltb 0.7 (confidence h) = true) ∧
  (∀ a, a ∈ generateSuggestedActions h matched →
        action_type a = "apply_fix" →
        automated a = PrimFloat.ltb 0.8 (confidence h)) ∧
  ((∃ a, a ∈ generateSuggestedActions h matched ∧ action_type a = "escalate")
     ↔ PrimFloat.ltb (confidence h) 0.5 = true) ∧
  (∀ a, a ∈ generateSuggestedActions h matched →
        action_type a = "escalate" → automated a = true).
Proof.
  unfold generateSuggestedActions.
  destruct matched as [|first rest];
  destruct (PrimFloat.ltb 0.7 (confidence h)) eqn:Efix;
  destruct (PrimFloat.ltb (confidence h) 0.5) eqn:Eesc;
  cbn [app].
  all: repeat split.
  all: try (intros; elem_cases; simpl in *; done).
  all: try (intros _; pick_elem).
  all: try pick_elem.
  all: try (intros (a & Ha & Ht); elem_cases; simpl in *; done).
Qed.

Lemma suggested_actions_of_initial_hypothesis :
  generateSuggestedActions initial_hypothesis [] =
    [ {| action_type := "create_ticket";
         description := Some "Create Jira ticket for tracking";
         automated := true; runbookId := None |};
      {| action_type := "escalate";
         description := Some "Escalate to on-call engineer";
         automated := true; runbookId := None |} ].
Proof. vm_compute. reflexivity. Qed.

(** C7 as stated fails: for the hypothesis of confidence 0 and no runbook,
    no [apply_fix] action is suggested. *)
Lemma apply_fix_not_always_suggested :
  ¬ (∀ (h : TriageHypothesis) (matched : list Runbook),
       ∃ a, a ∈ generateSuggestedActions h matched ∧
            action_type a = "apply_fix" ∧
            (automated a = true ↔ PrimFloat.ltb 0.8 (confidence h) = true)).
Proof.
  intros H. destruct (H initial_hypothesis []) as (a & Ha & Ht & _).
  rewrite suggested_actions_of_initial_hypothesis in Ha.
  elem_cases; discriminate Ht.
Qed.

(* ===================================================================== *)
(** * Properties of the remediation pipeline *)
(* ===================================================================== *)

(** An action that is not [apply_fix] never throws; it appends one entry if
    its type is one of the four handled ones, and nothing otherwise. *)
Lemma apply_action_direct env tr i action results :
  action_type action ≠ "apply_fix" →
  ∃ results',
    apply_action env tr i action results = (Ok tt, results') ∧
    map fix_type (appliedFixes results') =
      (map fix_type (appliedFixes results)
       ++ option_list (direct_fix_type (action_type action)))%list ∧
    pullRequest results' = pullRequest results ∧
    success results' = success results ∧
    verificationStatus results' = verificationStatus results ∧
    fr_alertId results' = fr_alertId results.
Proof.
  intros Hne. unfold apply_action, direct_fix_type.
  destruct (String.eqb_spec (action_type action) "apply_fix") as [Heq|_];
    [done|].
  destruct (action_type action =? "rollback")%string;
    [|destruct (action_type action =? "restart_service")%string;
      [|destruct (action_type action =? "scale_service")%string;
        [|destruct (action_type action =? "create_ticket")%string]]];
  eexists; (split; [reflexivity|]);
  cbn [appliedFixes pullRequest success verificationStatus fr_alertId
       option_list];
  rewrite ?map_app, ?app_nil_r; done.
Qed.

Lemma apply_actions_direct env tr actions : ∀ i results,
  Forall (λ a, action_type a ≠ "apply_fix") actions →
  ∃ results',
    apply_actions env tr i actions results = (Ok tt, results') ∧
    map fix_type (appliedFixes results') =
      (map fix_type (appliedFixes results)
       ++ omap (λ a, direct_fix_type (action_type a)) actions)%list ∧
    pullRequest results' = pullRequest results ∧
    success results' = success results ∧
    verificationStatus results' = verificationStatus results ∧
    fr_alertId results' = fr_alertId results.
Proof.
  induction actions as [|a actions IH]; intros i results Hall.
  - exists results. cbn. rewrite app_nil_r. done.
  - apply Forall_cons in Hall as [Ha Hall].
    destruct (apply_action_direct env tr i a results Ha)
      as (r1 & Hrun1 & Hfix1 & Hpr1 & Hs1 & Hv1 & Hid1).
    destruct (IH (S i) r1 Hall)
      as (r2 & Hrun2 & Hfix2 & Hpr2 & Hs2 & Hv2 & Hid2).
    exists r2. cbn [apply_actions]. rewrite Hrun1, Hrun2.
    split; [reflexivity|]. rewrite Hfix2, Hfix1, Hpr2, Hs2, Hv2, Hid2.
    repeat split; try done.
    rewrite <- app_assoc. f_equal. cbn [omap list_omap].
    by destruct (direct_fix_type (action_type a)).
Qed.









(** The same refusal in the order in which [generateSuggestedActions] lists
    the actions: the ticket is recorded, the failed fix leaves no entry, and
    the pass ends unverified. *)
Example failed_pull_request_after_ticket :
  let triageResult :=
    {| alertId := alertId fix_then_ticket;
       tr_summary := tr_summary fix_then_ticket;
       tr_severity := tr_severity fix_then_ticket;
       tr_labels := tr_labels fix_then_ticket;
       hypothesis := hypothesis fix_then_ticket;
       suggestedActions := rev (suggestedActions fix_then_ticket);
       tr_runbooks := [] |} in
  let r := applyFix failing_github triageResult
             ["create_ticket"; "apply_fix"] in
  map fix_type (appliedFixes r) = ["jira_ticket"] ∧
  success r = false ∧ verificationStatus r = "pending".
Proof. cbv zeta. repeat split; vm_compute; reflexivity. Qed.

(* ===================================================================== *)
(** * Properties of the store's readers *)
(* ===================================================================== *)

Lemma StronglySorted_weaken {A : Type} (R R' : A → A → Prop) (l : list A) :
  (∀ a b, R a b → R' a b) → StronglySorted R l → StronglySorted R' l.
Proof.
  intros HR. induction 1 as [|x l Hs IH Hall]; constructor; [exact IH|].
  eapply Forall_impl; [exact Hall|]. intros y. apply HR.
Qed.

Lemma StronglySorted_filter {A : Type} (R : A → A → Prop)
  (P : A → Prop) `{!∀ x, Decision (P x)} (l : list A) :
  StronglySorted R l → StronglySorted R (filter P l).
Proof.
  induction 1 as [|x l Hs IH Hall]; [constructor|].
  rewrite filter_cons. case_decide; [|exact IH].
  constructor; [exact IH|].
  apply Forall_forall. intros y Hy. apply list_elem_of_filter in Hy as [_ Hy].
  rewrite Forall_forall in Hall. by apply Hall.
Qed.

Lemma StronglySorted_map {A B : Type} (R : B → B → Prop) (f : A → B)
  (l : list A) :
  StronglySorted (λ a b, R (f a) (f b)) l → StronglySorted R (map f l).
Proof.
  induction 1 as [|x l Hs IH Hall]; simpl; constructor; [exact IH|].
  apply Forall_forall. intros y Hy. apply list_elem_of_fmap in Hy as (a & -> & Ha).
  rewrite Forall_forall in Hall. by apply Hall.
Qed.

Section SortingAsc.
Context {A : Type} (key : A → Z).

Lemma sort_asc_perm l : Permutation (sort_asc key l) l.
Proof. apply sort_desc_perm. Qed.

Lemma sort_asc_sorted l : StronglySorted (oldest_first key) (sort_asc key l).
Proof.
  unfold sort_asc.
  eapply StronglySorted_weaken; [|apply sort_desc_sorted].
  unfold newest_first, oldest_first. intros a b. lia.
Qed.

Lemma sort_asc_sorted_id l :
  StronglySorted (oldest_first key) l → sort_asc key l = l.
Proof.
  intros H. apply sort_desc_sorted_id.
  eapply StronglySorted_weaken; [|exact H].
  unfold newest_first, oldest_first. intros a b. lia.
Qed.

End SortingAsc.

(** ** The timeline of an incident *)

(** The rows of a list with their positions, from position [n] on. *)
Lemma imap_pair_lookup {A : Type} (l : list A) (i : nat) (x : A) :
  (i, x) ∈ imap pair l ↔ l !! i = Some x.
Proof.
  rewrite list_elem_of_lookup. split.
  - intros [j Hj]. rewrite list_lookup_imap in Hj.
    destruct (l !! j) as [y|] eqn:E; simplify_eq/=. done.
  - intros H. exists i. rewrite list_lookup_imap, H. done.
Qed.

Lemma imap_rows {A : Type} (P : A → Prop) `{!∀ x, Decision (P x)}
  (l : list A) : ∀ (g : nat → A → nat * A),
  (∀ i x, (g i x).2 = x) →
  map snd (filter (λ row : nat * A, P row.2) (imap g l)) = filter P l.
Proof.
  induction l as [|x l IH]; intros g Hg; [done|].
  rewrite imap_cons, !filter_cons. rewrite Hg.
  case_decide; cbn [map]; rewrite ?Hg, IH; try done.
  all: intros i y; apply Hg.
Qed.

Lemma imap_sorted {A : Type} (R : A → A → Prop) (l : list A) :
  ∀ (g : nat → A → nat * A),
  (∀ i x, (g i x).2 = x) →
  StronglySorted R l →
  StronglySorted (λ a b : nat * A, R a.2 b.2) (imap g l).
Proof.
  induction l as [|x l IH]; intros g Hg Hs; [constructor|].
  apply StronglySorted_inv in Hs as [Hs Hall].
  rewrite imap_cons. constructor.
  - apply IH; [|exact Hs]. intros i y. apply Hg.
  - apply Forall_forall. intros row Hy.
    apply list_elem_of_lookup in Hy as [k Hk]. rewrite list_lookup_imap in Hk.
    destruct (l !! k) as [z|] eqn:E; simplify_eq/=.
    rewrite !Hg. rewrite Forall_forall in Hall. apply Hall.
    by eapply list_elem_of_lookup_2.
Qed.

Lemma with_event_data_same event :
  with_event_data (event_data event) event = event.
Proof. by destruct event. Qed.

Lemma with_db_same w : with_db (db w) w = w.
Proof. by destruct w. Qed.

Lemma alter_same {A : Type} (f : A → A) (l : list A) i x :
  l !! i = Some x → f x = x → alter f i l = l.
Proof.
  intros Hl Hf. apply list_eq. intros j.
  destruct (decide (i = j)) as [<-|Hne].
  - rewrite list_lookup_alter_eq, Hl. cbn. by rewrite Hf.
  - by rewrite list_lookup_alter_ne.
Qed.

(** Rows that hold no string are read back as they are, and the store is
    left as it was. *)
Lemma parse_events_plain JSON_parse rows w :
  (∀ i event, (i, event) ∈ rows →
     timeline (db w) !! i = Some event ∧
     typeof_string (event_data event) = false) →
  parse_events JSON_parse rows w = (Ok (map snd rows), w).
Proof.
  induction rows as [|[i event] rows IH]; intros Hrows; [done|].
  destruct (Hrows i event) as [Hi Hplain]; [by left|].
  cbn [parse_events]. unfold set_event_data. mstep.
  rewrite (parse_if_string_other _ _ Hplain). mstep.
  rewrite (alter_same _ _ _ _ Hi (with_event_data_same event)).
  replace {| incidents := incidents (db w); timeline := timeline (db w);
             relations := relations (db w) |} with (db w) by (by destruct (db w)).
  rewrite with_db_same, IH.
  - by rewrite with_event_data_same.
  - intros j e Hj. apply Hrows. by right.
Qed.

(** What [getTimeline] returns when none of the incident's events holds a
    string: the rows that [DatabaseService.getTimeline] selects, as they are. *)
Lemma getTimeline_plain_run JSON_parse incidentId w :
  (∀ e, e ∈ timeline (db w) → incident_id e = incidentId →
        typeof_string (event_data e) = false) →
  IncidentManager_getTimeline JSON_parse incidentId w =
    (Ok (map snd
           (sort_asc (λ row : nat * TimelineEvent, ev_created_at row.2)
              (filter (λ row : nat * TimelineEvent,
                         incident_id row.2 = incidentId)
                      (imap pair (timeline (db w)))))), w).
Proof.
  intros Hplain.
  unfold IncidentManager_getTimeline, Database_getTimeline. mstep.
  apply parse_events_plain.
  intros i event Hin. rewrite sort_asc_perm in Hin.
  apply list_elem_of_filter in Hin as [Hid Hin]. cbn [snd] in Hid.
  apply imap_pair_lookup in Hin. split; [exact Hin|].
  apply Hplain; [|exact Hid]. by eapply list_elem_of_lookup_2.
Qed.

(** X1.  The timeline of an incident.  When none of the incident's stored
    events holds a string as its data (the manager's own methods store
    objects), [getTimeline(incidentId)] leaves the store as it was and
    returns the stored events of that incident and no other, each once,
    oldest first; and when the stored timeline is itself in chronological
    order, it returns them in the order in which they were appended. *)
Theorem getTimeline_of_incident
  (JSON_parse : string → result value) (incidentId : string) (w : World) :
  (∀ e, e ∈ timeline (db w) → incident_id e = incidentId →
        typeof_string (event_data e) = false) →
  ∃ events : list TimelineEvent,
    IncidentManager_getTimeline JSON_parse incidentId w = (Ok events, w) ∧
    events ≡ₚ filter (λ e, incident_id e = incidentId) (timeline (db w)) ∧
    StronglySorted (oldest_first ev_created_at) events ∧
    (StronglySorted (oldest_first ev_created_at) (timeline (db w)) →
     events = filter (λ e, incident_id e = incidentId) (timeline (db w))).
Proof.
  intros Hplain.
  set (rows := filter (λ row : nat * TimelineEvent, incident_id row.2 = incidentId)
                      (imap pair (timeline (db w)))).
  assert (Hrows : map snd rows
                  = filter (λ e, incident_id e = incidentId) (timeline (db w))).
  { exact (imap_rows (λ e, incident_id e = incidentId) (timeline (db w)) pair
             (λ _ _, eq_refl)). }
  eexists. split; [by apply getTimeline_plain_run|]. fold rows.
  split; [|split].
  - rewrite <- Hrows. apply Permutation_map. apply sort_asc_perm.
  - apply StronglySorted_map. apply (sort_asc_sorted (λ row, ev_created_at row.2)).
  - intros Hchron. rewrite <- Hrows. f_equal.
    apply sort_asc_sorted_id. unfold rows.
    apply StronglySorted_filter.
    exact (imap_sorted (oldest_first ev_created_at) (timeline (db w)) pair
             (λ _ _, eq_refl) Hchron).
Qed.

Lemma getTimeline_of_incident_witness :
  ∃ events : list TimelineEvent,
    IncidentManager_getTimeline no_JSON "inc-0000-0" resolved_world
      = (Ok events, resolved_world) ∧
    length events = 2.
Proof.
  destruct (getTimeline_of_incident no_JSON "inc-0000-0" resolved_world)
    as (events & Hrun & Hperm & _).
  - assert (H : forallb (λ e, negb (typeof_string (event_data e)))
                  (timeline (db resolved_world)) = true)
      by (vm_compute; reflexivity).
    rewrite forallb_forall in H. intros e He _.
    apply negb_true_iff, H. by apply list_elem_of_In.
  - exists events. split; [exact Hrun|].
    rewrite Hperm. vm_compute. reflexivity.
Defined.

(** ** Resolution *)

Lemma resolve_updates_lookup (text : value) :
  let updates : gmap string value :=
    list_to_map [("status", VStr "resolved"); ("resolution", text)] in
  updates !! "status" = Some (VStr "resolved") ∧
  updates !! "resolution" = Some text ∧
  (∀ k, k ≠ "status" → k ≠ "resolution" → updates !! k = None).
Proof.
  cbv zeta. rewrite !list_to_map_cons, list_to_map_nil. split; [|split].
  - by rewrite lookup_insert_eq.
  - by rewrite lookup_insert_ne, lookup_insert_eq.
  - intros k H1 H2. by rewrite !lookup_insert_ne.
Qed.

(** X2.  Resolving a stored incident.  [resolveIncident(id, resolution)]
    sets the status of a stored incident to ["resolved"] whatever it was,
    stores the JSON text of the resolution under [resolution], stamps
    [updated_at] and leaves every other property as it was; it appends two
    events for the incident, [status_changed_to_resolved] and then
    [resolved], the second carrying the resolution itself, and adds no
    relation. *)
Theorem resolveIncident_stored
  (JSON_stringify : value → value) (id : string) (resolution : value)
  (w : World) (incident : gmap string value) :
  incidents (db w) !! id = Some incident →
  ∃ (incident' : gmap string value) (w' : World) (e1 e2 : TimelineEvent),
    IncidentManager_resolveIncident JSON_stringify id resolution w
      = (Ok (VObj incident'), w') ∧
    incidents (db w') = <[id := incident']> (incidents (db w)) ∧
    incident' !! "status" = Some (VStr "resolved") ∧
    incident' !! "resolution" = Some (JSON_stringify resolution) ∧
    incident' !! "updated_at" = Some (VStr (toISOString (clock w (reads w)))) ∧
    (∀ k, k ≠ "status" → k ≠ "resolution" → k ≠ "updated_at" →
          incident' !! k = incident !! k) ∧
    timeline (db w') = (timeline (db w) ++ [e1; e2])%list ∧
    incident_id e1 = id ∧ event_type e1 = "status_changed_to_resolved" ∧
    incident_id e2 = id ∧ event_type e2 = "resolved" ∧
    get_opt (event_data e2) "resolution" = resolution ∧
    relations (db w') = relations (db w).
Proof.
  intros Hfound. unfold IncidentManager_resolveIncident.
  set (updates := list_to_map [("status", VStr "resolved");
                               ("resolution", JSON_stringify resolution)]
                  : gmap string value).
  destruct (resolve_updates_lookup (JSON_stringify resolution))
    as (Hs & Hr & Hother). fold updates in Hs, Hr, Hother. clearbody updates.
  unfold IncidentManager_updateIncident.
  unfold mbind at 1. unfold M_bind at 1. unfold mbind at 1. unfold M_bind at 1.
  rewrite (Database_updateIncident_found _ _ _ _ Hfound).
  unfold prop. rewrite Hs, !Hother by done. cbn [default truthy String.eqb negb].
  unfold Database_addTimelineEvent. mstep. unfold get. mstep.
  eexists _, _, _, _. split; [reflexivity|].
  cbn [db incidents timeline relations with_db tick].
  split; [reflexivity|].
  split; [rewrite updated_lookup_other by done; by rewrite Hs|].
  split; [rewrite updated_lookup_other by done; by rewrite Hr|].
  split; [apply updated_updated_at|].
  split.
  { intros k H1 H2 H3. rewrite updated_lookup by done.
    destruct (toAssign_triage updates) as [Hts Htc].
    destruct (toAssign_fix updates) as [Hfs Hfc].
    unfold attached in Hts, Htc, Hfs, Hfc. rewrite !Hother in Hts, Htc, Hfs, Hfc by done.
    destruct (decide (k = "triage_result")) as [->|]; [by rewrite Hts|].
    destruct (decide (k = "triageResult")) as [->|]; [by rewrite Htc|].
    destruct (decide (k = "fix_result")) as [->|]; [by rewrite Hfs|].
    destruct (decide (k = "fixResult")) as [->|]; [by rewrite Hfc|].
    rewrite toAssign_lookup_other by done. by rewrite (Hother k). }
  rewrite <- app_assoc. cbn [app].
  split; [reflexivity|]. cbn [incident_id event_type event_data].
  repeat split; reflexivity.
Qed.

Lemma resolveIncident_stored_witness :
  ∃ (incident' : gmap string value) (w' : World),
    IncidentManager_resolveIncident sample_stringify "inc-0000-0"
      (VStr "service restarted") open_world = (Ok (VObj incident'), w') ∧
    incident' !! "status" = Some (VStr "resolved") ∧
    incident' !! "resolution"
      = Some (VStr (dq +:+ "service restarted" +:+ dq)) ∧
    length (timeline (db w')) = 3.
Proof.
  assert (is_Some (incidents (db open_world) !! "inc-0000-0"))
    as [incident Hfound]
    by (apply (bool_decide_unpack _); vm_compute; reflexivity).
  destruct (resolveIncident_stored sample_stringify "inc-0000-0"
              (VStr "service restarted") open_world incident Hfound)
    as (incident' & w' & e1 & e2 & Hrun & _ & Hs & Hr & _ & _ & Htl & _).
  exists incident', w'. split; [exact Hrun|]. split; [exact Hs|].
  split; [exact Hr|]. rewrite Htl, length_app. vm_compute. reflexivity.
Defined.

(** X3.  Resolving an unknown incident.  [resolveIncident] of an id under
    which nothing is stored raises a TypeError (the update it starts with
    reads the status of the missing incident) and leaves the whole state as
    it was: no [resolved] event is recorded. *)
Theorem resolveIncident_unknown
  (JSON_stringify : value → value) (id : string) (resolution : value)
  (w : World) :
  incidents (db w) !! id = None →
  IncidentManager_resolveIncident JSON_stringify id resolution w
    = (Throw (TypeError "Cannot read properties of undefined or null: status"),
       w).
Proof.
  intros Hmissing. unfold IncidentManager_resolveIncident.
  unfold mbind at 1. unfold M_bind at 1.
  rewrite updateIncident_missing_status_throws; [reflexivity|exact Hmissing|].
  destruct (resolve_updates_lookup (JSON_stringify resolution)) as (Hs & _).
  unfold prop. by rewrite Hs.
Qed.

Lemma resolveIncident_unknown_witness :
  IncidentManager_resolveIncident sample_stringify "inc-0000-1"
    (VStr "service restarted") open_world
  = (Throw (TypeError "Cannot read properties of undefined or null: status"),
     open_world).
Proof.
  apply resolveIncident_unknown.
  apply (bool_decide_unpack _). vm_compute. reflexivity.
Defined.

(** ** Related incidents *)

(** One bind of a computation over the process state. *)
Ltac bind_step := unfold mbind at 1; unfold M_bind at 1.

(** The state in which the object stored under [id] has been replaced. *)
Lemma assign_run id (cur stored : gmap string value) k v w :
  assign id cur k v
    (with_db {| incidents := <[id := stored]> (incidents (db w));
                timeline := timeline (db w);
                relations := relations (db w) |} w)
  = (Ok (<[k := v]> cur),
     with_db {| incidents := <[id := <[k := v]> cur]> (incidents (db w));
                timeline := timeline (db w);
                relations := relations (db w) |} w).
Proof.
  unfold assign, set_incident. mstep. by rewrite insert_insert_eq.
Qed.

Lemma assign_first id (cur : gmap string value) k v w :
  assign id cur k v w
  = (Ok (<[k := v]> cur),
     with_db {| incidents := <[id := <[k := v]> cur]> (incidents (db w));
                timeline := timeline (db w);
                relations := relations (db w) |} w).
Proof. reflexivity. Qed.

(** [getIncident] of a stored incident whose JSON-typed fields hold no
    string: the read replaces the stored object, changes none of its other
    properties, and nothing else of the state. *)
Lemma getIncident_found_state JSON_parse id w incident :
  incidents (db w) !! id = Some incident →
  typeof_string (prop incident "labels") = false →
  typeof_string (prop incident "annotations") = false →
  typeof_string (prop incident "triage_result") = false →
  typeof_string (prop incident "fix_result") = false →
  ∃ incident' : gmap string value,
    IncidentManager_getIncident JSON_parse id w =
      (Ok (VObj incident'),
       with_db {| incidents := <[id := incident']> (incidents (db w));
                  timeline := timeline (db w);
                  relations := relations (db w) |} w) ∧
    (∀ k, k ∉ ["labels"; "annotations"; "triage_result"; "fix_result";
               "triageResult"; "fixResult"] →
          incident' !! k = incident !! k).
Proof.
  intros H Hl Ha Ht Hf.
  assert (Hget : Database_getIncident id w = (Ok (VObj incident), w))
    by (unfold Database_getIncident; mstep; by rewrite H).
  unfold IncidentManager_getIncident.
  bind_step. rewrite Hget. cbv beta iota.
  bind_step. unfold lift at 1. rewrite (parse_if_string_other _ _ Hl).
  cbv beta iota. bind_step. rewrite assign_first. cbv beta iota.
  rewrite prop_insert_ne by done.
  bind_step. unfold lift at 1. rewrite (parse_if_string_other _ _ Ha).
  cbv beta iota. bind_step. rewrite assign_run. cbv beta iota.
  rewrite !prop_insert_ne by done.
  bind_step. unfold lift at 1. rewrite (parse_if_string_other _ _ Ht).
  cbv beta iota. bind_step. rewrite assign_run. cbv beta iota.
  rewrite !prop_insert_ne by done.
  bind_step. unfold lift at 1. rewrite (parse_if_string_other _ _ Hf).
  cbv beta iota. bind_step. rewrite assign_run. cbv beta iota.
  match goal with
  | |- context [assign id ?i "triage_result" _] => remember i as cur eqn:Hcur
  end.
  assert (Hkeep : ∀ k, k ∉ ["labels"; "annotations"; "triage_result";
                            "fix_result"; "triageResult"; "fixResult"] →
                       cur !! k = incident !! k).
  { intros k Hk. subst cur.
    rewrite !lookup_insert_ne;
      [reflexivity | intros <-; apply Hk; by repeat constructor ..]. }
  clear Hcur.
  bind_step.
  destruct (is_undefined (prop cur "triage_result")
            && negb (is_undefined (prop cur "triageResult")));
    [rewrite assign_run | unfold mret at 1; unfold M_ret at 1];
    cbv beta iota;
    (bind_step;
     match goal with
     | |- context [if ?c then _ else _] => destruct c
     end;
     [rewrite assign_run | unfold mret at 1; unfold M_ret at 1];
     cbv beta iota;
     bind_step; rewrite assign_run; cbv beta iota;
     bind_step; rewrite assign_run; cbv beta iota;
     unfold mret, M_ret;
     (eexists; split; [reflexivity|]);
     intros k Hk;
     (rewrite !lookup_insert_ne;
      [by apply Hkeep | intros <-; apply Hk; by repeat constructor ..])).
Qed.



Lemma filter_filter_nil {A : Type} (P Q : A → Prop)
  `{!∀ x, Decision (P x)} `{!∀ x, Decision (Q x)} (l : list A) :
  (∀ x, x ∈ l → P x → ¬ Q x) → filter P (filter Q l) = [].
Proof.
  intros Hno. apply elem_of_nil_inv. intros x Hx.
  apply list_elem_of_filter in Hx as [HP Hx].
  apply list_elem_of_filter in Hx as [HQ Hx]. by apply (Hno x).
Qed.

(** The ids that [getRelatedIncidents] reads for [x], when the only edge
    between incidents that touches [x] is the last one stored, and goes to
    [b]. *)
Lemma relatedIds_of_link (x b : string) (rels : list MemoryRelation)
  (edge : MemoryRelation) :
  (∀ r, r ∈ rels → related_type r = VStr "incident" →
        relation_matches "incident" x r = false) →
  relation_matches "incident" x edge = true →
  related_type edge = VStr "incident" →
  related_id edge = VStr b →
  map related_id
      (filter (λ r, eq_str (related_type r) "incident" = true)
         (sort_desc rel_created_at
            (filter (λ r, relation_matches "incident" x r = true)
                    (rels ++ [edge])%list)))
  = [VStr b].
Proof.
  intros Hold Hmatch Htype Hid.
  assert (Hperm :
    filter (λ r, eq_str (related_type r) "incident" = true)
      (sort_desc rel_created_at
         (filter (λ r, relation_matches "incident" x r = true)
                 (rels ++ [edge])%list))
    ≡ₚ [edge]).
  { rewrite sort_desc_perm, filter_app.
    rewrite filter_app, filter_filter_nil; cycle 1.
    { intros r Hr Hty Hm. apply eq_str_spec in Hty.
      rewrite (Hold r Hr Hty) in Hm. discriminate. }
    rewrite app_nil_l, !filter_cons, !filter_nil.
    rewrite decide_True by exact Hmatch.
    rewrite filter_cons, filter_nil.
    rewrite decide_True by (by apply eq_str_spec). done. }
  apply Permutation_singleton_r in Hperm. rewrite Hperm. cbn. by rewrite Hid.
Qed.

Lemma eq_str_refl s : eq_str (VStr s) s = true.
Proof. by apply eq_str_spec. Qed.

(** X4.  Related incidents of a link.  Let [b] be a stored incident whose
    JSON-typed fields hold no string, and let no edge between incidents
    touch [a] or [b] yet.  After [linkIncidents(a, b, label)],
    [getRelatedIncidents(a)] returns exactly the incident stored under [b];
    and [getRelatedIncidents(b)] returns that same incident [b] again (the
    edge is found from its target as well, and the incident read is always
    the one on the edge's related side), not the incident [a]. *)
Theorem getRelatedIncidents_of_link
  (JSON_parse : string → result value) (a b label : string) (w : World)
  (incident : gmap string value) :
  incidents (db w) !! b = Some incident →
  typeof_string (prop incident "labels") = false →
  typeof_string (prop incident "annotations") = false →
  typeof_string (prop incident "triage_result") = false →
  typeof_string (prop incident "fix_result") = false →
  (∀ r, r ∈ relations (db w) → related_type r = VStr "incident" →
        relation_matches "incident" a r = false ∧
        relation_matches "incident" b r = false) →
  ∃ (incident' : gmap string value) (w' : World),
    IncidentManager_getRelatedIncidents JSON_parse a
        (snd (IncidentManager_linkIncidents a b label w))
      = (Ok [VObj incident'], w') ∧
    IncidentManager_getRelatedIncidents JSON_parse b
        (snd (IncidentManager_linkIncidents a b label w))
      = (Ok [VObj incident'], w') ∧
    incidents (db w') !! b = Some incident' ∧
    (∀ k, k ∉ ["labels"; "annotations"; "triage_result"; "fix_result";
               "triageResult"; "fixResult"] →
          incident' !! k = incident !! k).
Proof.
  intros Hfound Hl Ha Ht Hf Hfresh.
  set (w1 := snd (IncidentManager_linkIncidents a b label w)).
  set (edge :=
    {| rel_id := length (relations (db w)) + 1;
       entity_type := VStr "incident"; entity_id := VStr a;
       related_type := VStr "incident"; related_id := VStr b;
       relationship := VStr label;
       metadata := obj [("timestamp", VStr (toISOString (clock w (reads w))))];
       rel_created_at := clock w (S (reads w)) |}).
  assert (Hrels : relations (db w1) = (relations (db w) ++ [edge])%list)
    by reflexivity.
  assert (Hinc : incidents (db w1) = incidents (db w)) by reflexivity.
  assert (Hfound1 : incidents (db w1) !! b = Some incident)
    by (by rewrite Hinc).
  destruct (getIncident_found_state JSON_parse b w1 incident Hfound1 Hl Ha Ht Hf)
    as (incident' & Hget & Hkeep).
  clearbody w1.
  assert (Hrun : ∀ x,
    (∀ r, r ∈ relations (db w) → related_type r = VStr "incident" →
          relation_matches "incident" x r = false) →
    relation_matches "incident" x edge = true →
    IncidentManager_getRelatedIncidents JSON_parse x w1 =
      (Ok [VObj incident'],
       with_db {| incidents := <[b := incident']> (incidents (db w1));
                  timeline := timeline (db w1);
                  relations := relations (db w1) |} w1)).
  { intros x Hold Hmatch.
    unfold IncidentManager_getRelatedIncidents, Database_getRelations.
    bind_step. unfold get_db at 1. bind_step. unfold mret at 1, M_ret at 1.
    cbv beta iota. rewrite Hrels.
    rewrite (relatedIds_of_link x b (relations (db w)) edge Hold Hmatch
               eq_refl eq_refl).
    cbn [map Promise_all getIncident_of].
    bind_step. rewrite Hget. mstep. rewrite <- Hrels.
    cbn [omap list_omap stored_object incidents].
    by rewrite lookup_insert_eq. }
  eexists incident', _. split; [|split; [|split]].
  - apply Hrun.
    + intros r Hr Hty. by apply Hfresh.
    + unfold relation_matches, edge. cbn [entity_type entity_id].
      by rewrite !eq_str_refl.
  - apply Hrun.
    + intros r Hr Hty. by apply Hfresh.
    + unfold relation_matches, edge. cbn [related_type related_id].
      rewrite !eq_str_refl. by rewrite orb_true_r.
  - cbn [db with_db incidents]. apply lookup_insert_eq.
  - exact Hkeep.
Qed.


Lemma stored_prop_found w id incident k :
  incidents (db w) !! id = Some incident →
  stored_prop w id k = prop incident k.
Proof. intros H. unfold stored_prop. by rewrite H. Qed.

Lemma getRelatedIncidents_of_link_witness :
  ∃ (incident' : gmap string value) (w' : World),
    IncidentManager_getRelatedIncidents no_JSON "inc-0000-0"
        (snd (IncidentManager_linkIncidents "inc-0000-0" "inc-0000-1"
                "duplicate_of" two_incidents_world))
      = (Ok [VObj incident'], w') ∧
    IncidentManager_getRelatedIncidents no_JSON "inc-0000-1"
        (snd (IncidentManager_linkIncidents "inc-0000-0" "inc-0000-1"
                "duplicate_of" two_incidents_world))
      = (Ok [VObj incident'], w') ∧
    prop incident' "id" = VStr "inc-0000-1".
Proof.
  assert (is_Some (incidents (db two_incidents_world) !! "inc-0000-1"))
    as [incident Hfound]
    by (apply (bool_decide_unpack _); vm_compute; reflexivity).
  assert (Hplain : ∀ k, k ∈ ["labels"; "annotations"; "triage_result";
                             "fix_result"] →
            typeof_string (prop incident k) = false).
  { intros k Hk. rewrite <- (stored_prop_found _ _ _ _ Hfound).
    repeat (apply elem_of_cons in Hk as [->|Hk]; [vm_compute; reflexivity|]).
    apply elem_of_nil in Hk. destruct Hk. }
  assert (Hid : prop incident "id" = VStr "inc-0000-1").
  { transitivity (stored_prop two_incidents_world "inc-0000-1" "id");
      [symmetry; exact (stored_prop_found _ _ _ _ Hfound)
      | vm_compute; reflexivity]. }
  assert (Hrels : forallb (λ r, negb (eq_str (related_type r) "incident"))
                          (relations (db two_incidents_world)) = true)
    by (vm_compute; reflexivity).
  rewrite forallb_forall in Hrels.
  destruct (getRelatedIncidents_of_link no_JSON "inc-0000-0" "inc-0000-1"
              "duplicate_of" two_incidents_world incident Hfound)
    as (incident' & w' & Hrun1 & Hrun2 & _ & Hkeep).
  - apply Hplain. by repeat constructor.
  - apply Hplain. by repeat constructor.
  - apply Hplain. by repeat constructor.
  - apply Hplain. by repeat constructor.
  - intros r Hr Hty. apply list_elem_of_In, Hrels in Hr.
    rewrite Hty in Hr. discriminate Hr.
  - exists incident', w'. split; [exact Hrun1|]. split; [exact Hrun2|].
    unfold prop in Hid |- *. rewrite Hkeep; [exact Hid|].
    intros Hin.
    repeat (apply elem_of_cons in Hin as [Hin|Hin]; [discriminate Hin|]).
    by apply elem_of_nil in Hin.
Defined.

(** ** Listing the incidents *)

Lemma List_filter_perm {A : Type} (f : A → bool) (l1 l2 : list A) :
  l1 ≡ₚ l2 → List.filter f l1 ≡ₚ List.filter f l2.
Proof.
  induction 1 as [|x l1 l2 _ IH|x y l|l1 l2 l3 _ IH1 _ IH2]; cbn.
  - done.
  - destruct (f x); by rewrite IH.
  - destruct (f x), (f y); try done. apply perm_swap.
  - by rewrite IH1.
Qed.

Lemma List_filter_filter {A : Type} (f g : A → bool) (l : list A) :
  List.filter g (List.filter f l) = List.filter (λ x, f x && g x) l.
Proof.
  induction l as [|x l IH]; cbn; [done|].
  destruct (f x); cbn; [|exact IH]. destruct (g x); by rewrite IH.
Qed.

Lemma List_filter_sorted {A : Type} (R : A → A → Prop) (f : A → bool)
  (l : list A) :
  StronglySorted R l → StronglySorted R (List.filter f l).
Proof.
  induction 1 as [|x l Hs IH Hall]; cbn; [constructor|].
  destruct (f x); [|exact IH]. constructor; [exact IH|].
  apply Forall_forall. intros y Hy. apply list_elem_of_In, filter_In in Hy as [Hy _].
  rewrite Forall_forall in Hall. by apply Hall, list_elem_of_In.
Qed.

Lemma take_sorted {A : Type} (R : A → A → Prop) (n : nat) (l : list A) :
  StronglySorted R l → StronglySorted R (take n l).
Proof.
  intros Hs. revert n. induction Hs as [|x l Hs IH Hall]; intros [|n]; cbn;
    try constructor; [apply IH|].
  apply Forall_forall. intros y Hy. rewrite Forall_forall in Hall.
  apply Hall. apply elem_of_take in Hy as (i & Hi & _).
  by eapply list_elem_of_lookup_2.
Qed.

Lemma enumerates_sorted_keys m : enumerates (sorted_keys m) m.
Proof.
  split; [apply NoDup_fst_map_to_list|]. intros k. unfold sorted_keys.
  rewrite list_elem_of_fmap. split.
  - intros ([k' v] & -> & Hin). apply elem_of_map_to_list in Hin. by exists v.
  - intros [v Hv]. exists (k, v). split; [done|]. by apply elem_of_map_to_list.
Qed.

(** Whatever the order of insertion, [Map.values()] lists every stored
    incident once. *)
Lemma Map_values_perm keys (m : gmap string (gmap string value)) :
  enumerates keys m → Map_values keys m ≡ₚ (map_to_list m).*2.
Proof.
  intros [Hnodup Hkeys]. unfold Map_values.
  assert (Hperm : keys ≡ₚ (map_to_list m).*1).
  { apply NoDup_Permutation; [done|apply NoDup_fst_map_to_list|].
    intros k. rewrite Hkeys. symmetry.
    apply (proj2 (enumerates_sorted_keys m)). }
  rewrite Hperm.
  assert (Hall : ∀ l : list (string * gmap string value),
            (∀ k v, (k, v) ∈ l → m !! k = Some v) →
            omap (λ k, m !! k) l.*1 = l.*2).
  { induction l as [|[k v] l IH]; intros Hl; [done|]. cbn.
    rewrite (Hl k v) by (by left). cbn. f_equal. apply IH.
    intros k' v' Hin. apply Hl. by right. }
  rewrite Hall; [done|]. intros k v. apply elem_of_map_to_list.
Qed.

Lemma Database_getIncidents_run Date_getTime keys filters w :
  filters ≠ VUndef → filters ≠ VNull →
  Database_getIncidents Date_getTime keys filters w =
    (Ok (sort_desc (λ i, Date_getTime (prop i "created_at"))
           (List.filter
              (λ i, passes_filter (get_opt filters "status") (prop i "status")
                    && passes_filter (get_opt filters "severity")
                                     (prop i "severity"))
              (Map_values keys (incidents (db w))))), w).
Proof.
  intros Hu Hn. unfold Database_getIncidents. mstep.
  rewrite !(get_defined filters _ Hu Hn). cbv beta iota. mstep.
  do 3 f_equal. unfold passes_filter.
  destruct (truthy (get_opt filters "status")),
           (truthy (get_opt filters "severity")); cbn [negb orb].
  - by rewrite List_filter_filter.
  - apply List.filter_ext. intros i. by rewrite andb_true_r.
  - done.
  - symmetry. apply forallb_filter_id. by apply forallb_forall.
Qed.

(** X5.  Listing incidents.  Whatever the order in which the incidents were
    inserted, [DatabaseService.getIncidents(filters)] leaves the store as it
    was and returns every stored incident that passes the filters, each
    once, newest first by [created_at]: a [status] or [severity] filter that
    is truthy keeps the incidents whose property is strictly equal to it, a
    falsy one (absent, [''], [0], [null]) is not applied. *)
Theorem getIncidents_filters
  (Date_getTime : value → Z) (keys : list string) (filters : value)
  (w : World) :
  enumerates keys (incidents (db w)) →
  filters ≠ VUndef → filters ≠ VNull →
  ∃ found : list (gmap string value),
    Database_getIncidents Date_getTime keys filters w = (Ok found, w) ∧
    found ≡ₚ
      List.filter
        (λ i, passes_filter (get_opt filters "status") (prop i "status")
              && passes_filter (get_opt filters "severity") (prop i "severity"))
        (map_to_list (incidents (db w))).*2 ∧
    StronglySorted (newest_first (λ i, Date_getTime (prop i "created_at")))
                   found.
Proof.
  intros Henum Hu Hn. eexists. split; [by apply Database_getIncidents_run|].
  split.
  - rewrite sort_desc_perm. apply List_filter_perm. by apply Map_values_perm.
  - apply sort_desc_sorted.
Qed.

Example sample_getTime_toISOString :
  sample_getTime (VStr (toISOString 1700000000123%Z)) = 1700000000123%Z ∧
  sample_getTime (VStr (toISOString 951782400000%Z)) = 951782400000%Z.
Proof. split; vm_compute; reflexivity. Qed.

Lemma getIncidents_filters_witness :
  ∃ found : list (gmap string value),
    Database_getIncidents sample_getTime
      (sorted_keys (incidents (db two_incidents_world)))
      (obj [("status", VStr "open")]) two_incidents_world
      = (Ok found, two_incidents_world) ∧
    length found = 2.
Proof.
  destruct (getIncidents_filters sample_getTime
              (sorted_keys (incidents (db two_incidents_world)))
              (obj [("status", VStr "open")]) two_incidents_world)
    as (found & Hrun & Hperm & _).
  - apply enumerates_sorted_keys.
  - discriminate.
  - discriminate.
  - exists found. split; [exact Hrun|]. rewrite Hperm.
    vm_compute. reflexivity.
Defined.

(** X6.  Similar incidents.  For an incident object [incident] and a limit
    that is not negative, [getSimilarIncidents(incident, limit)] leaves the
    store as it was and returns at most [limit] stored incidents, newest
    first, none of which has the [id] of [incident]; when [incident] has a
    truthy severity they all have that severity, and when its severity is
    falsy no severity is asked for: any other stored incident may be
    returned. *)
Theorem getSimilarIncidents_bounds
  (Date_getTime : value → Z) (keys : list string) (incident : value)
  (limit : Z) (w : World) :
  enumerates keys (incidents (db w)) →
  incident ≠ VUndef → incident ≠ VNull → (0 ≤ limit)%Z →
  ∃ similar : list (gmap string value),
    IncidentManager_getSimilarIncidents Date_getTime keys incident limit w
      = (Ok similar, w) ∧
    (length similar ≤ Z.to_nat limit)%nat ∧
    (∀ i, i ∈ similar →
       (∃ k, incidents (db w) !! k = Some i) ∧
       strict_eq (prop i "id") (get_opt incident "id") = false ∧
       (truthy (get_opt incident "severity") = true →
        strict_eq (prop i "severity") (get_opt incident "severity") = true)) ∧
    (truthy (get_opt incident "severity") = false →
     ∀ k i, incidents (db w) !! k = Some i →
            strict_eq (prop i "id") (get_opt incident "id") = false →
            (Z.of_nat (size (incidents (db w))) ≤ limit)%Z →
            i ∈ similar) ∧
    StronglySorted (newest_first (λ i, Date_getTime (prop i "created_at")))
                   similar.
Proof.
  intros Henum Hu Hn Hlimit. unfold IncidentManager_getSimilarIncidents.
  bind_step. unfold lift at 1. rewrite (get_defined incident _ Hu Hn).
  cbv beta iota. bind_step.
  rewrite Database_getIncidents_run by done. cbv beta iota.
  bind_step. unfold lift at 1. rewrite (get_defined incident _ Hu Hn).
  cbv beta iota. unfold mret, M_ret.
  unfold obj. rewrite list_to_map_cons, list_to_map_nil.
  cbn [get_opt]. rewrite prop_insert_eq.
  assert (Hst : prop (<["severity" := get_opt incident "severity"]> ∅) "status"
                = VUndef) by (by rewrite prop_insert_ne).
  rewrite Hst. clear Hst.
  set (sev := get_opt incident "severity").
  set (candidates :=
    List.filter (λ i, negb (strict_eq (prop i "id") (get_opt incident "id")))
      (sort_desc (λ i, Date_getTime (prop i "created_at"))
         (List.filter
            (λ i, passes_filter VUndef (prop i "status")
                  && passes_filter sev (prop i "severity"))
            (Map_values keys (incidents (db w)))))).
  assert (Hslice : slice_to limit candidates = take (Z.to_nat limit) candidates).
  { unfold slice_to. by rewrite (proj2 (Z.ltb_ge _ _) Hlimit). }
  assert (Hcand : ∀ i, i ∈ candidates ↔
            i ∈ (map_to_list (incidents (db w))).*2 ∧
            strict_eq (prop i "id") (get_opt incident "id") = false ∧
            passes_filter sev (prop i "severity") = true).
  { intros i. unfold candidates.
    rewrite list_elem_of_In, filter_In, <- list_elem_of_In.
    rewrite sort_desc_perm.
    rewrite list_elem_of_In, filter_In, <- list_elem_of_In.
    rewrite (Map_values_perm _ _ Henum). cbn [passes_filter truthy negb orb andb].
    rewrite negb_true_iff. tauto. }
  exists (slice_to limit candidates). split; [reflexivity|].
  rewrite Hslice. split; [rewrite length_take; lia|]. split; [|split].
  - intros i Hi. apply elem_of_take in Hi as (n & Hi & _).
    apply list_elem_of_lookup_2, Hcand in Hi as (Hin & Hid & Hsev).
    split; [|split; [exact Hid|]].
    + apply list_elem_of_fmap in Hin as ([k v] & -> & Hin).
      exists k. by apply elem_of_map_to_list.
    + intros Htruthy. unfold passes_filter in Hsev. fold sev in Htruthy.
      by rewrite Htruthy in Hsev.
  - intros Hfalsy k i Hstored Hid Hsize.
    rewrite take_ge.
    + apply Hcand. split; [|split; [exact Hid|]].
      * apply list_elem_of_fmap. exists (k, i). split; [done|].
        by apply elem_of_map_to_list.
      * unfold passes_filter. fold sev in Hfalsy. by rewrite Hfalsy.
    + assert (length candidates ≤ size (incidents (db w)))%nat; [|lia].
      unfold candidates.
      etrans; [apply List.filter_length_le|].
      rewrite (Permutation_length (sort_desc_perm _ _)).
      etrans; [apply List.filter_length_le|].
      rewrite (Permutation_length (Map_values_perm _ _ Henum)).
      rewrite length_fmap. by rewrite length_map_to_list.
  - apply take_sorted, List_filter_sorted, sort_desc_sorted.
Qed.

Lemma getSimilarIncidents_bounds_witness :
  ∃ similar : list (gmap string value),
    IncidentManager_getSimilarIncidents sample_getTime
      (sorted_keys (incidents (db two_incidents_world)))
      (obj [("id", VStr "inc-0000-0"); ("severity", VStr "critical")]) 5
      two_incidents_world
      = (Ok similar, two_incidents_world) ∧
    (length similar ≤ 5)%nat ∧
    ∀ i, i ∈ similar → prop i "id" ≠ VStr "inc-0000-0".
Proof.
  destruct (getSimilarIncidents_bounds sample_getTime
              (sorted_keys (incidents (db two_incidents_world)))
              (obj [("id", VStr "inc-0000-0"); ("severity", VStr "critical")])
              5 two_incidents_world)
    as (similar & Hrun & Hlen & Hall & _).
  - apply enumerates_sorted_keys.
  - discriminate.
  - discriminate.
  - lia.
  - exists similar. split; [exact Hrun|]. split; [exact Hlen|].
    intros i Hi Heq. destruct (Hall i Hi) as (_ & Hid & _).
    rewrite Heq in Hid. discriminate Hid.
Defined.

(* ===================================================================== *)
(** * Invariants of the store under the manager's calls *)
(* ===================================================================== *)

Lemma extends_refl w : extends w w.
Proof.
  split; [done|]. split; exists []; by rewrite app_nil_r.
Qed.

Lemma extends_trans w1 w2 w3 : extends w1 w2 → extends w2 w3 → extends w1 w3.
Proof.
  intros (Hd1 & (e1 & Ht1 & Hi1) & (r1 & Hr1 & Hj1))
         (Hd2 & (e2 & Ht2 & Hi2) & (r2 & Hr2 & Hj2)).
  split; [by etrans|]. split.
  - exists (e1 ++ e2)%list. rewrite Ht2, Ht1, <- app_assoc. split; [done|].
    rewrite map_app, Hi1, Hi2, Ht1, !length_app, seq_app.
    repeat f_equal; lia.
  - exists (r1 ++ r2)%list. rewrite Hr2, Hr1, <- app_assoc. split; [done|].
    rewrite map_app, Hj1, Hj2, Hr1, !length_app, seq_app.
    repeat f_equal; lia.
Qed.

(** A state that differs in the clock or in the uuids only. *)
Lemma extends_same_db w w' : db w' = db w → extends w w'.
Proof.
  intros H. unfold extends. rewrite H.
  split; [done|]. split; exists []; by rewrite app_nil_r.
Qed.

Create HintDb grows discriminated.

Lemma grows_same_db {A : Type} (m : M A) :
  (∀ w, db (snd (m w)) = db w) → grows m.
Proof.
  intros H w Hplain. split.
  - unfold events_plain. by rewrite H.
  - by apply extends_same_db.
Qed.

Lemma grows_ret {A : Type} (a : A) : grows (mret a).
Proof. by apply grows_same_db. Qed.

Lemma grows_lift {A : Type} (r : result A) : grows (lift r).
Proof. by apply grows_same_db. Qed.

Lemma grows_now : grows now.
Proof. by apply grows_same_db. Qed.

Lemma grows_uuidv4 : grows uuidv4.
Proof. by apply grows_same_db. Qed.

Lemma grows_get_db : grows get_db.
Proof. by apply grows_same_db. Qed.

Lemma grows_bind {A B : Type} (m : M A) (f : A → M B) :
  grows m → (∀ a, grows (f a)) → grows (m ≫= f).
Proof.
  intros Hm Hf w Hplain. unfold mbind, M_bind.
  destruct (Hm w Hplain) as [Hplain1 Hext1].
  destruct (m w) as [[a|e] w1]; cbn [snd] in *; [|done].
  destruct (Hf a w1 Hplain1) as [Hplain2 Hext2].
  split; [done|]. by eapply extends_trans.
Qed.

Lemma grows_set_incident id incident : grows (set_incident id incident).
Proof.
  intros w Hplain. split; [exact Hplain|].
  split; [|split; exists []; by rewrite app_nil_r].
  cbn. set_solver.
Qed.

Lemma grows_addTimelineEvent incidentId eventType eventData :
  typeof_string eventData = false →
  grows (Database_addTimelineEvent incidentId eventType eventData).
Proof.
  intros Hdata w Hplain. split.
  - unfold events_plain. cbn. apply Forall_app. split; [exact Hplain|].
    by repeat constructor.
  - split; [done|]. split.
    + eexists [_]. split; [reflexivity|]. cbn. by rewrite Nat.add_1_r.
    + exists []. by rewrite app_nil_r.
Qed.

Lemma grows_addMemoryRelation data : grows (Database_addMemoryRelation data).
Proof.
  intros w Hplain. split; [exact Hplain|].
  split; [done|]. split.
  - exists []. by rewrite app_nil_r.
  - eexists [_]. split; [reflexivity|]. cbn. by rewrite Nat.add_1_r.
Qed.

#[local] Hint Resolve grows_ret grows_lift grows_now grows_uuidv4 grows_get_db
  grows_set_incident grows_addMemoryRelation : grows.

(** The composition of computations that grow the store. *)
Ltac grows_tac :=
  repeat first
    [ progress auto with grows
    | apply grows_addTimelineEvent; reflexivity
    | apply grows_bind; [|intros ?]
    | match goal with
      | |- grows (if ?c then _ else _) => destruct c
      | |- grows (match ?x with _ => _ end) => destruct x
      end ].

Lemma grows_Database_createIncident id data :
  grows (Database_createIncident id data).
Proof. unfold Database_createIncident. grows_tac. Qed.

Lemma grows_Database_updateIncident id updates :
  grows (Database_updateIncident id updates).
Proof. unfold Database_updateIncident. grows_tac. Qed.

Lemma grows_Database_getIncident id : grows (Database_getIncident id).
Proof. unfold Database_getIncident. grows_tac. Qed.

Lemma grows_Database_getRelations entityType entityId :
  grows (Database_getRelations entityType entityId).
Proof. unfold Database_getRelations. grows_tac. Qed.

#[local] Hint Resolve grows_Database_createIncident
  grows_Database_updateIncident grows_Database_getIncident
  grows_Database_getRelations : grows.

Lemma grows_createIncident alert : grows (IncidentManager_createIncident alert).
Proof. unfold IncidentManager_createIncident. grows_tac. Qed.

Lemma grows_updateIncident id updates :
  grows (IncidentManager_updateIncident id updates).
Proof. unfold IncidentManager_updateIncident. grows_tac. Qed.

Lemma grows_linkIncidents a b relationship :
  grows (IncidentManager_linkIncidents a b relationship).
Proof. unfold IncidentManager_linkIncidents. grows_tac. Qed.

Lemma grows_assign id incident k v : grows (assign id incident k v).
Proof. unfold assign. grows_tac. Qed.

#[local] Hint Resolve grows_createIncident grows_updateIncident
  grows_linkIncidents grows_assign : grows.

Lemma grows_getIncident JSON_parse id :
  grows (IncidentManager_getIncident JSON_parse id).
Proof. unfold IncidentManager_getIncident. grows_tac. Qed.

Lemma grows_resolveIncident JSON_stringify id resolution :
  grows (IncidentManager_resolveIncident JSON_stringify id resolution).
Proof. unfold IncidentManager_resolveIncident. grows_tac. Qed.

Lemma grows_getTimeline JSON_parse incidentId :
  grows (IncidentManager_getTimeline JSON_parse incidentId).
Proof.
  intros w Hplain. rewrite getTimeline_plain_run.
  - split; [exact Hplain|apply extends_refl].
  - intros e He _. unfold events_plain in Hplain.
    rewrite Forall_forall in Hplain. by apply Hplain.
Qed.

Lemma grows_Promise_all {A : Type} (calls : list (M A)) :
  Forall grows calls → grows (Promise_all calls).
Proof.
  induction 1 as [|call rest Hcall Hrest IH]; intros w Hplain.
  - split; [exact Hplain|apply extends_refl].
  - cbn [Promise_all]. destruct (Hcall w Hplain) as [Hplain1 Hext1].
    destruct (call w) as [r w1]. cbn [snd] in *.
    destruct (IH w1 Hplain1) as [Hplain2 Hext2].
    destruct (Promise_all rest w1) as [rs w2]. cbn [snd] in *.
    split; [exact Hplain2|]. by eapply extends_trans.
Qed.

Lemma grows_getIncident_of JSON_parse id :
  grows (getIncident_of JSON_parse id).
Proof.
  destruct id; unfold getIncident_of; auto using grows_getIncident with grows.
Qed.

Lemma grows_getRelatedIncidents JSON_parse incidentId :
  grows (IncidentManager_getRelatedIncidents JSON_parse incidentId).
Proof.
  unfold IncidentManager_getRelatedIncidents.
  apply grows_bind; [auto with grows|]. intros found.
  destruct (map related_id _) as [|id ids] eqn:E; [auto with grows|].
  apply grows_bind; [|intros; grows_tac].
  apply grows_Promise_all. apply Forall_forall. intros call Hcall.
  apply list_elem_of_fmap in Hcall as (x & -> & _).
  apply grows_getIncident_of.
Qed.

Lemma grows_run_call JSON_parse JSON_stringify (c : Call) (w : World) :
  events_plain w →
  events_plain (run_call JSON_parse JSON_stringify c w) ∧
  extends w (run_call JSON_parse JSON_stringify c w).
Proof.
  destruct c; cbn [run_call].
  - apply grows_createIncident.
  - apply grows_updateIncident.
  - apply grows_getIncident.
  - apply grows_getTimeline.
  - apply grows_getRelatedIncidents.
  - apply grows_linkIncidents.
  - apply grows_resolveIncident.
Qed.

Lemma grows_run_calls JSON_parse JSON_stringify (calls : list Call) :
  ∀ w, events_plain w →
  events_plain (run_calls JSON_parse JSON_stringify calls w) ∧
  extends w (run_calls JSON_parse JSON_stringify calls w).
Proof.
  induction calls as [|c calls IH]; intros w Hplain.
  - split; [exact Hplain|apply extends_refl].
  - cbn [run_calls foldl].
    destruct (grows_run_call JSON_parse JSON_stringify c w Hplain)
      as [Hplain1 Hext1].
    destruct (IH _ Hplain1) as [Hplain2 Hext2].
    split; [exact Hplain2|]. by eapply extends_trans.
Qed.

(** X7.  The store only grows.  From a state in which no event holds a
    string as its data, no sequence of calls on the incident manager
    ([createIncident], [updateIncident], [getIncident], [getTimeline],
    [getRelatedIncidents], [linkIncidents], [resolveIncident]), whether they
    return or throw, removes an incident id, or removes, rewrites or reorders
    a row of the timeline or of the relations: the stored ids are still
    stored, and the timeline and the relations of the state before are
    prefixes of those after.  The state after is again one in which no event
    holds a string as its data. *)
Theorem store_only_grows
  (JSON_parse : string → result value) (JSON_stringify : value → value)
  (calls : list Call) (w : World) :
  events_plain w →
  events_plain (run_calls JSON_parse JSON_stringify calls w) ∧
  dom (incidents (db w))
    ⊆ dom (incidents (db (run_calls JSON_parse JSON_stringify calls w))) ∧
  timeline (db w)
    `prefix_of` timeline (db (run_calls JSON_parse JSON_stringify calls w)) ∧
  relations (db w)
    `prefix_of` relations (db (run_calls JSON_parse JSON_stringify calls w)).
Proof.
  intros Hplain.
  destruct (grows_run_calls JSON_parse JSON_stringify calls w Hplain)
    as (Hplain' & Hdom & (events & Htl & _) & (rows & Hrel & _)).
  split; [exact Hplain'|]. split; [exact Hdom|].
  split; [by exists events | by exists rows].
Qed.

(** X8.  Row numbers.  In every state reached from the empty store by calls
    on the incident manager, the events of the timeline are numbered 1, 2,
    ... in their order, and so are the relations: the [id] of a row is its
    position, and no two rows share one. *)
Theorem rows_are_numbered
  (JSON_parse : string → result value) (JSON_stringify : value → value)
  (calls : list Call) (clock : nat → instant) (uuids : nat → string) :
  map ev_id (timeline (db (run_calls JSON_parse JSON_stringify calls
                             (initial_world clock uuids))))
    = seq 1 (length (timeline (db (run_calls JSON_parse JSON_stringify calls
                                     (initial_world clock uuids))))) ∧
  map rel_id (relations (db (run_calls JSON_parse JSON_stringify calls
                               (initial_world clock uuids))))
    = seq 1 (length (relations (db (run_calls JSON_parse JSON_stringify calls
                                      (initial_world clock uuids))))).
Proof.
  destruct (grows_run_calls JSON_parse JSON_stringify calls
              (initial_world clock uuids))
    as (_ & _ & (events & -> & Hev) & (rows & -> & Hrow)).
  - constructor.
  - cbn [initial_world db empty_database timeline relations app length] in *.
    done.
Qed.

Lemma store_only_grows_witness :
  events_plain open_world ∧
  timeline (db open_world)
    `prefix_of` timeline (db (run_calls no_JSON sample_stringify sample_calls
                                open_world)) ∧
  length (timeline (db (run_calls no_JSON sample_stringify sample_calls
                          open_world))) = 5.
Proof.
  assert (Hplain : events_plain open_world).
  { unfold events_plain. apply Forall_forall. intros e He.
    assert (H : forallb (λ e, negb (typeof_string (event_data e)))
                  (timeline (db open_world)) = true)
      by (vm_compute; reflexivity).
    rewrite forallb_forall in H. apply negb_true_iff, H.
    by apply list_elem_of_In. }
  split; [exact Hplain|].
  destruct (store_only_grows no_JSON sample_stringify sample_calls open_world
              Hplain) as (_ & _ & Hprefix & _).
  split; [exact Hprefix|]. vm_compute. reflexivity.
Defined.

(* ===================================================================== *)
(** * Properties of the triage of an alert *)
(* ===================================================================== *)










(* ===================================================================== *)
(** * The approval gate of the remediation *)
(* ===================================================================== *)





(* ===================================================================== *)
(** * The verification of a fix and the watcher's fingerprints *)
(* ===================================================================== *)






Lemma get_Ok v k x : get v k = Ok x → x = get_opt v k.
Proof. destruct v; cbn; congruence. Qed.




(** The fingerprint the watcher gives the alert of [polled_memory_alerts]. *)
Example generateFingerprint_polled_memory_alert :
  (get_opt (get_opt polled_memory_alerts "data") "alerts"
     = VArr [firing_memory_alert]) ∧
  generateFingerprint firing_memory_alert
    = Ok (Buffer_base64 "HighMemoryUsage-unknown-2023-11-14T22:00:00.000Z").
Proof. split; vm_compute; reflexivity. Qed.

(* ===================================================================== *)
(** * What a polling cycle emits *)
(* ===================================================================== *)

(** One turn of the polling loop: it throws, or changes nothing, or adds one
    fingerprint that was not in the set and emits one firing alert that
    carries it. *)
Lemma poll_alert_spec alert Q :
  match poll_alert alert Q with
  | Throw _ => True
  | Ok (Q', emitted) =>
      (Q' = Q ∧ emitted = []) ∨
      (∃ fp normalizedAlert,
         (fp ∉ Q) ∧ Q' = {[fp]} ∪ Q ∧ emitted = [normalizedAlert] ∧
         generateFingerprint alert = Ok fp ∧
         get_opt alert "state" = VStr "firing" ∧
         normalizedAlert =
           obj [ ("fingerprint", VStr fp);
                 ("labels", get_opt alert "labels");
                 ("annotations", get_opt alert "annotations");
                 ("startsAt", get_opt alert "activeAt");
                 ("status", VStr "firing") ])
  end.
Proof.
  unfold poll_alert.
  destruct (get alert "state") as [state|e] eqn:Es; [|done].
  cbn [mbind result_bind]. apply get_Ok in Es as ->.
  destruct (eq_str (get_opt alert "state") "firing") eqn:Ef; [|by left].
  apply eq_str_spec in Ef.
  destruct (generateFingerprint alert) as [fp|e] eqn:Eg; [|done].
  cbn [mbind result_bind]. case_decide as Hin; [by left|].
  destruct (get alert "labels") as [a_labels|e] eqn:El; [|done].
  cbn [mbind result_bind]. apply get_Ok in El as ->.
  destruct (get alert "annotations") as [a_annotations|e] eqn:Ea; [|done].
  cbn [mbind result_bind]. apply get_Ok in Ea as ->.
  destruct (get alert "activeAt") as [activeAt|e] eqn:Et; [|done].
  cbn [mbind result_bind mret result_ret]. apply get_Ok in Et as ->.
  right. by eexists _, _.
Qed.

(** X11.  What a polling cycle emits.  Whatever the alerting backend
    answers, a polling cycle removes no fingerprint from the watcher's set
    and emits exactly one alert for each fingerprint it adds, in the order
    in which it adds them: the fingerprints added are distinct, none was in
    the set before, and the alert emitted for one carries it as its
    [fingerprint] and has the status ["firing"].  So the set grows by the
    number of alerts emitted. *)
Theorem pollCycle_emits_new_fingerprints
  (response_data : result value) (processed : gset string) :
  ∃ added : list string,
    (pollCycle response_data processed).1 = list_to_set added ∪ processed ∧
    NoDup added ∧
    (∀ fp, fp ∈ added → fp ∉ processed) ∧
    Forall2 (λ fp alert,
               get_opt alert "fingerprint" = VStr fp ∧
               get_opt alert "status" = VStr "firing")
            added (pollCycle response_data processed).2 ∧
    size (pollCycle response_data processed).1
      = (size processed + length (pollCycle response_data processed).2)%nat.
Proof.
  assert (Hloop : ∀ alerts Q,
    ∃ added : list string,
      (poll_alerts alerts Q).1 = list_to_set added ∪ Q ∧
      NoDup added ∧
      (∀ fp, fp ∈ added → fp ∉ Q) ∧
      Forall2 (λ fp alert,
                 get_opt alert "fingerprint" = VStr fp ∧
                 get_opt alert "status" = VStr "firing")
              added (poll_alerts alerts Q).2).
  { induction alerts as [|alert rest IH]; intros Q; cbn [poll_alerts].
    - exists []. cbn [list_to_set fst snd].
      split; [by rewrite (left_id_L ∅ (∪))|]. split; [constructor|].
      split; [intros ? Hin; by apply elem_of_nil in Hin | constructor].
    - pose proof (poll_alert_spec alert Q) as Hspec.
      destruct (poll_alert alert Q) as [[Q1 emitted1]|e].
      + destruct (IH Q1) as (added & Hset & Hnodup & Hnew & Hall).
        destruct (poll_alerts rest Q1) as [Q2 emitted2]. cbn [fst snd] in *.
        destruct Hspec as [[-> ->]|(fp & a & Hfp & -> & -> & _ & _ & ->)].
        * exists added. done.
        * exists (fp :: added). cbn [list_to_set app].
          split; [by rewrite Hset, (assoc_L (∪)), (comm_L (∪) _ {[fp]})|].
          split.
          { constructor; [|done]. intros Hin. apply (Hnew fp Hin).
            clear; set_solver. }
          split.
          { intros x [->|Hx]%elem_of_cons; [done|].
            specialize (Hnew x Hx). clear -Hnew. set_solver. }
          constructor; [|done]. unfold obj, get_opt.
          rewrite !list_to_map_cons.
          split; [by rewrite prop_insert_eq|].
          rewrite !prop_insert_ne by done. by rewrite prop_insert_eq.
      + exists []. cbn [list_to_set fst snd].
        split; [by rewrite (left_id_L ∅ (∪))|]. split; [constructor|].
        split; [intros ? Hin; by apply elem_of_nil in Hin | constructor]. }
  assert (Hcycle : ∃ added : list string,
      (pollCycle response_data processed).1 = list_to_set added ∪ processed ∧
      NoDup added ∧
      (∀ fp, fp ∈ added → fp ∉ processed) ∧
      Forall2 (λ fp alert,
                 get_opt alert "fingerprint" = VStr fp ∧
                 get_opt alert "status" = VStr "firing")
              added (pollCycle response_data processed).2).
  { unfold pollCycle.
    destruct response_data as [data|e];
      [destruct (iterate _) as [alerts|e]; [apply Hloop|]|];
      (exists []; cbn [list_to_set fst snd];
       split; [by rewrite (left_id_L ∅ (∪))|]; split; [constructor|];
       split; [intros ? Hin; by apply elem_of_nil in Hin | constructor]). }
  destruct Hcycle as (added & Hset & Hnodup & Hnew & Hall).
  exists added. split; [exact Hset|]. split; [exact Hnodup|].
  split; [exact Hnew|]. split; [exact Hall|].
  rewrite Hset, size_union.
  - rewrite size_list_to_set by done.
    apply Forall2_length in Hall. lia.
  - intros fp Hin%elem_of_list_to_set. by apply Hnew.
Qed.

(* ===================================================================== *)
(** * The triage of an alert, end to end *)
(* ===================================================================== *)






